(** * The address manager of azure-container-networking: ipam/pool.go

    A shallow embedding of the address spaces, pools and records of
    [ipam/pool.go], and the properties of the merge, request and release
    operations.

    Representation.
    - Go's [int] is 64 bits wide: a [Z] with the wrap-around written out
      ([GoInt.wrap]).  A byte is a [Z] in [0, 256).
    - A Go map is a [gmap].  A [range] loop whose body only touches the entry
      it visits is a [map_fold]; a loop whose result depends on the visiting
      order (Go leaves it unspecified) takes that order as an argument.
    - [Addresses] owns the records of a pool.  [addrsByID] holds pointers to
      records that [Addresses] holds: every pointer stored there is read from
      [Addresses] (pool.go lines 540, 560, 565, 578), and it is modelled by
      the key under which [Addresses] holds the record, so that an update made
      through one map is seen through the other.
    - The back pointer [addressPool.as] is not stored: a pool is reached
      through the space that holds it, and the operations that read [ap.as]
      take that space's epoch.
    - A nil dereference is the outcome [Panic]. *)

From stdpp Require Import gmap strings list fin_maps.
From Stdlib Require Import ZArith Lia Ascii DecimalString.

Local Open Scope Z_scope.

(** ** Go's machine integers *)

Module GoInt.

Definition max_int : Z := 2 ^ 63 - 1.
Definition min_int : Z := - 2 ^ 63.

(** Two's complement wrap-around of a 64-bit signed integer. *)
Definition wrap (z : Z) : Z := (z + 2 ^ 63) mod 2 ^ 64 - 2 ^ 63.

Definition add (a b : Z) : Z := wrap (a + b).
Definition sub (a b : Z) : Z := wrap (a - b).

(** [b++] on a [uint8]. *)
Definition byte_inc (b : Z) : Z := (b + 1) mod 256.

(** [uitoa]: the decimal text of a non-negative integer. *)
Definition uitoa (z : Z) : string := NilZero.string_of_uint (N.to_uint (Z.to_N z)).

End GoInt.

(** ** The part of Go's [net] package that pool.go calls *)

Module Net.

Definition IP := list Z.
Definition IPMask := list Z.

Record IPNet := mkIPNet { IPNet_IP : IP; IPNet_Mask : IPMask }.

Definition IPv4len : nat := 4.
Definition IPv6len : nat := 16.

Definition v4InV6Prefix : list Z := [0; 0; 0; 0; 0; 0; 0; 0; 0; 0; 255; 255].

(** [net.IPv4]: the 16-byte form of an IPv4 address. *)
Definition IPv4 (a b c d : Z) : IP := v4InV6Prefix ++ [a; b; c; d].

Definition bytes_eqb (x y : list Z) : bool := bool_decide (x = y).

Definition isZeros (p : list Z) : bool := forallb (Z.eqb 0) p.
Definition allFF (p : list Z) : bool := forallb (Z.eqb 255) p.

(** [IP.To4]: [None] is Go's nil. *)
Definition To4 (ip : IP) : option IP :=
  if (length ip =? IPv4len)%nat then Some ip
  else if (length ip =? IPv6len)%nat && isZeros (take 10 ip)
          && bytes_eqb (take 2 (drop 10 ip)) [255; 255]
       then Some (drop 12 ip)
       else None.

(** [IP.To16]. *)
Definition To16 (ip : IP) : option IP :=
  if (length ip =? IPv4len)%nat then
    match ip with
    | [a; b; c; d] => Some (IPv4 a b c d)
    | _ => None
    end
  else if (length ip =? IPv6len)%nat then Some ip
  else None.

(** [IP.Mask]: the empty list is Go's nil result. *)
Definition Mask (ip : IP) (mask : IPMask) : IP :=
  let mask :=
    if (length mask =? IPv6len)%nat && (length ip =? IPv4len)%nat
       && allFF (take 12 mask)
    then drop 12 mask else mask in
  let ip :=
    if (length mask =? IPv4len)%nat && (length ip =? IPv6len)%nat
       && bytes_eqb (take 12 ip) v4InV6Prefix
    then drop 12 ip else ip in
  if (length ip =? length mask)%nat then zip_with Z.land ip mask else [].

(** [networkNumberAndMask]. *)
Definition networkNumberAndMask (n : IPNet) : option (IP * IPMask) :=
  let oip :=
    match To4 (IPNet_IP n) with
    | Some ip4 => Some ip4
    | None =>
        if (length (IPNet_IP n) =? IPv6len)%nat then Some (IPNet_IP n) else None
    end in
  match oip with
  | None => None
  | Some ip =>
      if (length (IPNet_Mask n) =? IPv4len)%nat then
        if (length ip =? IPv4len)%nat then Some (ip, IPNet_Mask n) else None
      else if (length (IPNet_Mask n) =? IPv6len)%nat then
        if (length ip =? IPv4len)%nat then Some (ip, drop 12 (IPNet_Mask n))
        else Some (ip, IPNet_Mask n)
      else None
  end.

(** [IPNet.Contains]. *)
Definition Contains (n : IPNet) (ip : IP) : bool :=
  match networkNumberAndMask n with
  | None => false
  | Some (nn, m) =>
      let ip := match To4 ip with Some x => x | None => ip end in
      (length ip =? length nn)%nat
      && bytes_eqb (zip_with Z.land nn m) (zip_with Z.land ip m)
  end.

(** [CIDRMask ones bits]. *)
Fixpoint maskBytes (len : nat) (ones : Z) : list Z :=
  match len with
  | O => []
  | S len' =>
      (if 8 <=? ones then 255
       else if ones <=? 0 then 0
       else 255 - (2 ^ (8 - ones) - 1)) :: maskBytes len' (ones - 8)
  end.

Definition CIDRMask (ones bits : Z) : IPMask :=
  maskBytes (Z.to_nat (bits / 8)) ones.

(** [simpleMaskLength]: [None] is Go's -1. *)
Definition leadingOnes (v : Z) : Z :=
  if v =? 255 then 8 else if v =? 254 then 7 else if v =? 252 then 6
  else if v =? 248 then 5 else if v =? 240 then 4 else if v =? 224 then 3
  else if v =? 192 then 2 else if v =? 128 then 1 else if v =? 0 then 0
  else -1.

Fixpoint simpleMaskLength (mask : IPMask) : option Z :=
  match mask with
  | [] => Some 0
  | v :: rest =>
      if v =? 255 then (fun n => 8 + n) <$> simpleMaskLength rest
      else if (0 <=? leadingOnes v) && isZeros rest then Some (leadingOnes v)
      else None
  end.

Definition hexDigit (n : Z) : ascii :=
  nth (Z.to_nat n) (String.list_ascii_of_string "0123456789abcdef") "0"%char.

(** [hexString]: two digits per byte. *)
Fixpoint hexString (b : list Z) : string :=
  match b with
  | [] => ""
  | v :: rest => String (hexDigit (v / 16)) (String (hexDigit (v mod 16)) (hexString rest))
  end.

(** [appendHex]: no leading zeros, "0" for zero. *)
Definition appendHex (i : Z) : string :=
  if i =? 0 then "0"
  else
    String.string_of_list_ascii
      (omap (fun j => if 0 <? Z.shiftr i (j * 4)
                      then Some (hexDigit (Z.land (Z.shiftr i (j * 4)) 15))
                      else None)
            [7; 6; 5; 4; 3; 2; 1; 0]).

(** The eight 16-bit groups of a 16-byte address. *)
Fixpoint groups (p : list Z) : list Z :=
  match p with
  | a :: b :: rest => (Z.lor (Z.shiftl a 8) b) :: groups rest
  | _ => []
  end.

Fixpoint zerosPrefix (g : list Z) : nat :=
  match g with
  | x :: rest => if x =? 0 then S (zerosPrefix rest) else O
  | [] => O
  end.

(** The first longest run of zero groups: (start, length), length 0 when
    there is none. *)
Fixpoint longestRun (fuel i : nat) (g : list Z) (best : nat * nat) : nat * nat :=
  match fuel with
  | O => best
  | S fuel' =>
      match g with
      | [] => best
      | _ :: _ =>
          let n := zerosPrefix g in
          if (0 <? n)%nat && (snd best <? n)%nat
          then longestRun fuel' (i + n + 1) (drop (n + 1) g) (i, n)
          else longestRun fuel' (i + 1) (drop 1 g) best
      end
  end.

Fixpoint printGroups (fuel i : nat) (g : list Z) (e0 e1 : option nat) : string :=
  match fuel with
  | O => ""
  | S fuel' =>
      if (length g <=? i)%nat then ""
      else if bool_decide (Some i = e0) then
        let i' := default i e1 in
        "::" +:+
        (if (length g <=? i')%nat then ""
         else appendHex (nth i' g 0) +:+ printGroups fuel' (S i') g e0 e1)
      else
        (if (0 <? i)%nat then ":" else "") +:+
        appendHex (nth i g 0) +:+ printGroups fuel' (S i) g e0 e1
  end.

Definition stringV6 (p : IP) : string :=
  let g := groups p in
  let '(s, n) := longestRun 8 0 g (O, O) in
  if (n <=? 1)%nat then printGroups 9 0 g None None
  else printGroups 9 0 g (Some s) (Some (s + n)%nat).

(** [IP.String]. *)
Definition IP_String (ip : IP) : string :=
  if (length ip =? 0)%nat then "<nil>"
  else
    match To4 ip with
    | Some [a; b; c; d] =>
        GoInt.uitoa a +:+ "." +:+ GoInt.uitoa b +:+ "." +:+ GoInt.uitoa c +:+ "."
        +:+ GoInt.uitoa d
    | _ =>
        if (length ip =? IPv6len)%nat then stringV6 ip
        else "?" +:+ hexString ip
    end.

Definition IPMask_String (m : IPMask) : string :=
  if (length m =? 0)%nat then "<nil>" else hexString m.

(** [IPNet.String]. *)
Definition IPNet_String (n : IPNet) : string :=
  match networkNumberAndMask n with
  | None => "<nil>"
  | Some (nn, m) =>
      match simpleMaskLength m with
      | None => IP_String nn +:+ "/" +:+ IPMask_String m
      | Some l => IP_String nn +:+ "/" +:+ GoInt.uitoa l
      end
  end.

(** [strings.Split s sep] for a one-byte separator. *)
Fixpoint split (sep : ascii) (s : string) : list string :=
  match s with
  | EmptyString => [EmptyString]
  | String c rest =>
      if Ascii.eqb c sep then EmptyString :: split sep rest
      else
        match split sep rest with
        | [] => [String c EmptyString]
        | x :: xs => String c x :: xs
        end
  end.

Definition isDigit (c : ascii) : bool :=
  (48 <=? Z.of_nat (nat_of_ascii c)) && (Z.of_nat (nat_of_ascii c) <=? 57).

(** [dtoi] on a whole field: decimal digits only, at least one, and no
    more than [big = 0xFFFFFF]. *)
Definition dtoi (s : string) : option Z :=
  if bool_decide (s = "") then None
  else if forallb isDigit (String.list_ascii_of_string s) then
    match NilZero.uint_of_string s with
    | Some u => if Z.of_uint u <? 16777215 then Some (Z.of_uint u) else None
    | None => None
    end
  else None.

(** One field of a dotted-decimal address: a number of at most 255, written
    without a leading zero. *)
Definition parseField (s : string) : option Z :=
  match dtoi s with
  | Some n =>
      if (n <=? 255)
         && negb ((1 <? String.length s)%nat && bool_decide (take 1 (String.list_ascii_of_string s) = ["0"%char]))
      then Some n else None
  | None => None
  end.

(** [parseIPv4]: four fields, the result in 16-byte form. *)
Definition parseIPv4 (s : string) : option IP :=
  match split "." s with
  | [a; b; c; d] =>
      match parseField a, parseField b, parseField c, parseField d with
      | Some a, Some b, Some c, Some d => Some (IPv4 a b c d)
      | _, _, _, _ => None
      end
  | _ => None
  end.

(** The first of '.' and ':' in a text, which decides the parser
    [net.ParseIP] uses. *)
Fixpoint firstSeparator (s : string) : option ascii :=
  match s with
  | EmptyString => None
  | String c rest =>
      if Ascii.eqb c "." then Some "."%char
      else if Ascii.eqb c ":" then Some ":"%char
      else firstSeparator rest
  end.

(** [strings.Index s "/"] as the two sides of the first '/'. *)
Fixpoint cutSlash (s : string) : option (string * string) :=
  match s with
  | EmptyString => None
  | String c rest =>
      if Ascii.eqb c "/" then Some (EmptyString, rest)
      else
        match cutSlash rest with
        | Some (l, r) => Some (String c l, r)
        | None => None
        end
  end.

Section Parsers.

(** The parser of IPv6 text is left open: pool.go reaches it only through
    [net.ParseCIDR] and [net.ParseIP]. *)
Variable parseIPv6 : string -> option IP.

(** [net.ParseIP]. *)
Definition ParseIP (s : string) : option IP :=
  match firstSeparator s with
  | Some c => if Ascii.eqb c "." then parseIPv4 s else parseIPv6 s
  | None => None
  end.

(** [net.ParseCIDR]: [None] is the parse error. *)
Definition ParseCIDR (s : string) : option (IP * IPNet) :=
  match cutSlash s with
  | None => None
  | Some (addr, mask) =>
      let '(iplen, oip) :=
        match parseIPv4 addr with
        | Some ip => (4, Some ip)
        | None => (16, parseIPv6 addr)
        end in
      match oip, dtoi mask with
      | Some ip, Some n =>
          if n <=? 8 * iplen then
            let m := CIDRMask n (8 * iplen) in
            Some (ip, mkIPNet (Mask ip m) m)
          else None
      | _, _ => None
      end
  end.

End Parsers.

End Net.

(** ** Errors and outcomes *)

(** The error values that pool.go returns.  They are declared in a file that
    is not among the sources; only their names and their being distinct are
    used. *)
Inductive error : Set :=
  | errInvalidScope
  | errInvalidAddressSpace
  | errInvalidPoolId
  | errInvalidAddress
  | errAddressPoolExists
  | errAddressPoolNotFound
  | errAddressPoolNotInUse
  | errNoAvailableAddressPools
  | errAddressExists
  | errAddressNotFound
  | errAddressInUse
  | errAddressNotInUse
  | errNoAvailableAddresses.

(** What a call comes to: a value, an error, a nil dereference, or a loop
    that was still running when the fuel ended. *)
Inductive outcome (A : Type) : Type :=
  | Ok (a : A)
  | Err (e : error)
  | Panic
  | OutOfFuel.

Arguments Ok {A} a.
Arguments Err {A} e.
Arguments Panic {A}.
Arguments OutOfFuel {A}.

(** ** Constants *)

(** Modelled from the spec: the option keys are declared in manager.go, which
    is not among the sources; section 6 of the specification lists them. *)
Definition OptInterfaceName : string := "interface-name".
Definition OptAddressID : string := "address-id".
Definition OptAddressType : string := "address-type".
Definition OptAddressTypeGateway : string := "gateway".
Definition OptOverlayNetwork : string := "overlay-network".
Definition OptNetworkName : string := "network-name".

Definition LocalDefaultAddressSpaceId : string := "local".
Definition GlobalDefaultAddressSpaceId : string := "global".

Definition LocalScope : Z := 0.

(** [net.ParseIP("::1")] and [net.ParseIP("168.63.129.16")]. *)
Definition defaultGatewayHostId : Net.IP :=
  [0; 0; 0; 0; 0; 0; 0; 0; 0; 0; 0; 0; 0; 0; 0; 1].
Definition dnsHostProxyAddress : Net.IP := Net.IPv4 168 63 129 16.

(** Modelled from the spec: [platform.GenerateAddress] is not among the
    sources.  The specification gives the gateway as the first usable host
    address of the subnet: the network number, with the host id in the bits
    that the mask leaves free, in 16-byte form. *)
Definition GenerateAddress (subnet : Net.IPNet) (hostId : Net.IP) : Net.IP :=
  let mask16 :=
    if (length (Net.IPNet_Mask subnet) =? Net.IPv4len)%nat
    then replicate 12 255 ++ Net.IPNet_Mask subnet
    else Net.IPNet_Mask subnet in
  match Net.To16 (Net.IPNet_IP subnet), Net.To16 hostId with
  | Some networkId, Some host =>
      zip_with (fun nm h => Z.lor (Z.land (fst nm) (snd nm))
                                  (Z.land h (Z.lxor (snd nm) 255)))
               (zip networkId mask16) host
  | _, _ => []
  end.

(** An option map; [None] is the nil map, which reads as the empty one. *)
Definition options_t : Type := option (gmap string string).

Definition opt (options : options_t) (k : string) : string :=
  match options with
  | Some m => default "" (m !! k)
  | None => ""
  end.

(** ** The data model (pool.go, lines 37-85) *)

Record addressPoolId : Type := mkPoolId {
  AsId : string;
  pid_Subnet : string;
  ChildSubnet : string
}.

Record addressRecord : Type := mkRecord {
  ID : string;
  Addr : Net.IP;
  InUse : bool;
  unhealthy : bool;
  ar_epoch : Z
}.

Record addressPool : Type := mkPool {
  ap_Id : string;
  IfName : string;
  Subnet : Net.IPNet;
  Gateway : Net.IP;
  Addresses : gmap string addressRecord;
  addrsByID : gmap string string;
  IsIPv6 : bool;
  Priority : Z;
  RefCount : Z;
  ap_epoch : Z
}.

Record addressSpace : Type := mkSpace {
  as_Id : string;
  Scope : Z;
  Pools : gmap string addressPool;
  as_epoch : Z
}.

Record AddressPoolInfo : Type := mkInfo {
  info_Subnet : Net.IPNet;
  info_Gateway : Net.IP;
  DnsServers : list Net.IP;
  UnhealthyAddrs : list Net.IP;
  info_IsIPv6 : bool;
  Available : Z;
  Capacity : Z
}.

(** Field assignments. *)
Definition ar_set_ID (v : string) (r : addressRecord) : addressRecord :=
  mkRecord v (Addr r) (InUse r) (unhealthy r) (ar_epoch r).
Definition ar_set_InUse (v : bool) (r : addressRecord) : addressRecord :=
  mkRecord (ID r) (Addr r) v (unhealthy r) (ar_epoch r).
Definition ar_set_unhealthy (v : bool) (r : addressRecord) : addressRecord :=
  mkRecord (ID r) (Addr r) (InUse r) v (ar_epoch r).
Definition ar_set_epoch (v : Z) (r : addressRecord) : addressRecord :=
  mkRecord (ID r) (Addr r) (InUse r) (unhealthy r) v.

Definition ap_set_Addresses (v : gmap string addressRecord) (p : addressPool)
  : addressPool :=
  mkPool (ap_Id p) (IfName p) (Subnet p) (Gateway p) v (addrsByID p)
         (IsIPv6 p) (Priority p) (RefCount p) (ap_epoch p).
Definition ap_set_addrsByID (v : gmap string string) (p : addressPool)
  : addressPool :=
  mkPool (ap_Id p) (IfName p) (Subnet p) (Gateway p) (Addresses p) v
         (IsIPv6 p) (Priority p) (RefCount p) (ap_epoch p).
Definition ap_set_RefCount (v : Z) (p : addressPool) : addressPool :=
  mkPool (ap_Id p) (IfName p) (Subnet p) (Gateway p) (Addresses p)
         (addrsByID p) (IsIPv6 p) (Priority p) v (ap_epoch p).
Definition ap_set_epoch (v : Z) (p : addressPool) : addressPool :=
  mkPool (ap_Id p) (IfName p) (Subnet p) (Gateway p) (Addresses p)
         (addrsByID p) (IsIPv6 p) (Priority p) (RefCount p) v.

Definition as_set_Pools (v : gmap string addressPool) (s : addressSpace)
  : addressSpace :=
  mkSpace (as_Id s) (Scope s) v (as_epoch s).

(** ** AddressPoolId (pool.go, lines 91-127) *)

Definition NewAddressPoolId (asId subnet childSubnet : string) : addressPoolId :=
  mkPoolId asId subnet childSubnet.

Definition NewAddressPoolIdFromString (s : string) : outcome addressPoolId :=
  let p := Net.split "|" s in
  if (3 <? length p)%nat then Err errInvalidPoolId
  else
    Ok (mkPoolId (nth 0 p "")
                 (if (2 <=? length p)%nat then nth 1 p "" else "")
                 (if (length p =? 3)%nat then nth 2 p "" else "")).

Definition addressPoolId_String (pid : addressPoolId) : string :=
  let s := AsId pid +:+ "|" +:+ pid_Subnet pid in
  if bool_decide (ChildSubnet pid <> "") then s +:+ "|" +:+ ChildSubnet pid
  else s.

(** ** AddressSpace *)


(** [isInUse] (lines 501-503). *)
Definition isInUse (ap : addressPool) : bool := 0 <? RefCount ap.

(** The body of the loop over the records of a snapshot pool whose key the
    live space already has (lines 201-217).  [st] is the live pool's
    [Addresses] and [usedNewEpoch]. *)
Definition merge_address (newEpoch : Z) (ak : string) (av : addressRecord)
    (st : gmap string addressRecord * bool) : gmap string addressRecord * bool :=
  match st.1 !! ak with
  | None => (<[ak := ar_set_epoch newEpoch av]> st.1, true)
  | Some ar =>
      (<[ak := ar_set_unhealthy false (ar_set_epoch newEpoch ar)]> st.1, true)
  end.

(** The body of the loop over the pools of the snapshot (lines 185-223).
    [st] is the live space's [Pools] and [usedNewEpoch]. *)
Definition merge_pool (newEpoch : Z) (pk : string) (pv : addressPool)
    (st : gmap string addressPool * bool) : gmap string addressPool * bool :=
  match st.1 !! pk with
  | None => (<[pk := ap_set_epoch newEpoch pv]> st.1, true)
  | Some ap =>
      let r := map_fold (merge_address newEpoch) (Addresses ap, st.2)
                        (Addresses pv) in
      (<[pk := ap_set_Addresses r.1 ap]> st.1, r.2)
  end.

(** The body of the loop over the records of a stale pool (lines 234-247).
    [st] is the pool's epoch and its [Addresses]. *)
Definition sweep_address (epoch : Z) (ak : string) (av : addressRecord)
    (st : Z * gmap string addressRecord) : Z * gmap string addressRecord :=
  if ar_epoch av =? epoch then (epoch, st.2)
  else if InUse av then (epoch, <[ak := ar_set_unhealthy true av]> st.2)
  else (st.1, delete ak st.2).

(** The body of the cleanup loop over the pools (lines 231-256). *)
Definition sweep_pool (epoch : Z) (pk : string) (pv : addressPool)
    (pools : gmap string addressPool) : gmap string addressPool :=
  if ap_epoch pv <? epoch then
    let r := map_fold (sweep_address epoch) (ap_epoch pv, Addresses pv)
                      (Addresses pv) in
    let pv' := ap_set_epoch r.1 (ap_set_Addresses r.2 pv) in
    if (ap_epoch pv' <? epoch) && negb (isInUse pv') then delete pk pools
    else <[pk := pv']> pools
  else pools.

(** [merge] (lines 178-259).  The snapshot is left without pools; the result
    is the live space. *)
Definition merge (as_ newas : addressSpace) : addressSpace :=
  let newEpoch := GoInt.add (as_epoch as_) 1 in
  let r := map_fold (merge_pool newEpoch) (Pools as_, false) (Pools newas) in
  let epoch := if r.2 then newEpoch else as_epoch as_ in
  mkSpace (as_Id as_) (Scope as_) (map_fold (sweep_pool epoch) r.1 r.1) epoch.

(** [newAddressPool] (lines 262-288).  The pool returned is the one the space
    holds under the key returned. *)
Definition newAddressPool (as_ : addressSpace) (ifName nwName : string)
    (priority : Z) (subnet : Net.IPNet)
  : addressSpace * string * option error :=
  let pool := Net.IPNet_String subnet in
  match Pools as_ !! (pool +:+ nwName) with
  | Some _ => (as_, pool +:+ nwName, Some errAddressPoolExists)
  | None =>
      let v6 := bool_decide (Net.To4 (Net.IPNet_IP subnet) = None) in
      let addrPool :=
        mkPool (pool +:+ nwName) ifName subnet
               (GenerateAddress subnet defaultGatewayHostId)
               ∅ ∅ v6 priority 0 (as_epoch as_) in
      (as_set_Pools (<[pool +:+ nwName := addrPool]> (Pools as_)) as_,
       pool +:+ nwName, None)
  end.

(** [getAddressPool] (lines 291-299). *)
Definition getAddressPool (as_ : addressSpace) (poolId : string)
  : outcome addressPool :=
  match Pools as_ !! poolId with
  | None => Err errInvalidPoolId
  | Some ap => Ok ap
  end.

(** [inc] (lines 300-307), on the bytes from the last to the first. *)
Fixpoint inc_rev (l : list Z) : list Z :=
  match l with
  | [] => []
  | b :: rest =>
      if 0 <? GoInt.byte_inc b then GoInt.byte_inc b :: rest
      else GoInt.byte_inc b :: inc_rev rest
  end.

Definition inc (ip : Net.IP) : Net.IP := rev (inc_rev (rev ip)).

(** [newAddressRecord] (lines 506-526).  The record returned is the one the
    pool holds under the key returned. *)
Definition newAddressRecord (ap : addressPool) (addr : Net.IP)
  : addressPool * option string * option error :=
  let id := Net.IP_String addr in
  if negb (Net.Contains (Subnet ap) addr) then (ap, None, Some errInvalidAddress)
  else
    match Addresses ap !! id with
    | Some _ => (ap, Some id, Some errAddressExists)
    | None =>
        (ap_set_Addresses
           (<[id := mkRecord "" addr false false (ap_epoch ap)]> (Addresses ap)) ap,
         Some id, None)
    end.

(** The first loop of [populateIPAddresses] (lines 312-314): the texts of the
    addresses from [ip] on that the subnet contains. *)
Fixpoint listIPs (fuel : nat) (ipnet : Net.IPNet) (ip : Net.IP)
  : option (list string) :=
  match fuel with
  | O => None
  | S fuel' =>
      if Net.Contains ipnet ip
      then cons (Net.IP_String ip) <$> listIPs fuel' ipnet (inc ip)
      else Some []
  end.

Section Pool.

(** Go's parser of IPv6 text, which [net.ParseIP] and [net.ParseCIDR] fall
    back to. *)
Variable parseIPv6 : string -> option Net.IP.

(** The second loop of [populateIPAddresses] (lines 318-328).  The text [ip]
    that the record is stored under at line 327 is the text that
    [newAddressRecord] made its key from, for every address that [ParseIP]
    reads back as it was printed; the store then rewrites the entry. *)
Fixpoint populate_loop (lastIndex index : Z) (ipList : list string)
    (ap : addressPool) : addressPool * option error :=
  match ipList with
  | [] => (ap, None)
  | ip :: rest =>
      let address := default [] (Net.ParseIP parseIPv6 ip) in
      match newAddressRecord ap address with
      | (ap1, _, Some err) => (ap1, Some err)
      | (ap1, None, None) => (ap1, None)
      | (ap1, Some k, None) =>
          let addrs1 :=
            if (index =? 0) || (index =? 1) || (index =? lastIndex)
            then alter (ar_set_InUse true) k (Addresses ap1)
            else Addresses ap1 in
          let addrs2 :=
            match addrs1 !! k with
            | Some ar => <[ip := ar]> addrs1
            | None => addrs1
            end in
          populate_loop lastIndex (index + 1) rest (ap_set_Addresses addrs2 ap1)
      end
  end.

(** [populateIPAddresses] (lines 308-330); [None] when the first loop is
    still running at the end of the fuel. *)
Definition populateIPAddresses (fuel : nat) (ap : addressPool) (ip : Net.IP)
    (ipnet : Net.IPNet) : option (addressPool * option error) :=
  match listIPs fuel ipnet (Net.Mask ip (Net.IPNet_Mask ipnet)) with
  | None => None
  | Some ipList =>
      Some (populate_loop (Z.of_nat (length ipList) - 1) 0 ipList ap)
  end.

(** [getPool] (lines 332-363): the space, the key of the pool returned
    ([None] is nil) and the error returned; [None] when out of fuel.  The
    [err] that [ParseCIDR] and [newAddressPool] assign at lines 344 and 350
    is a variable of the inner block: an error of [newAddressPool] is not
    returned. *)
Definition getPool (fuel : nat) (as_ : addressSpace) (poolId : string)
    (options : options_t)
  : option (addressSpace * option string * option error) :=
  match Pools as_ !! poolId with
  | Some _ => Some (as_, Some poolId, None)
  | None =>
      match options with
      | None => Some (as_, None, None)
      | Some _ =>
          let nwName := opt options OptNetworkName in
          if bool_decide (nwName = "") then Some (as_, None, None)
          else
            match Pools as_ !! (poolId +:+ nwName) with
            | Some _ => Some (as_, Some (poolId +:+ nwName), None)
            | None =>
                if bool_decide (opt options OptOverlayNetwork = "")
                then Some (as_, None, Some errAddressPoolNotFound)
                else
                  match Net.ParseCIDR parseIPv6 poolId with
                  | None => Some (as_, None, Some errInvalidPoolId)
                  | Some (ip, ipnet) =>
                      match newAddressPool as_ "" (opt options OptNetworkName)
                                           0 ipnet with
                      | (as1, k, Some _) => Some (as1, Some k, None)
                      | (as1, k, None) =>
                          match Pools as1 !! k with
                          | None => Some (as1, Some k, None)
                          | Some ap =>
                              match populateIPAddresses fuel ap ip ipnet with
                              | None => None
                              | Some (ap', _) =>
                                  Some (as_set_Pools (<[k := ap']> (Pools as1)) as1,
                                        Some k, None)
                              end
                          end
                      end
                  end
            end
      end
  end.

(** One round of the loop of [requestPool] over the pools (lines 384-423):
    [ap] is the key of the pool chosen so far, [k] the key visited. *)
Definition requestPool_visit (pools : gmap string addressPool)
    (ifName : string) (v6 : bool) (ap : option string) (k : string)
  : option string :=
  match pools !! k with
  | None => ap
  | Some pool =>
      if isInUse pool then ap
      else if negb (Bool.eqb (IsIPv6 pool) v6) then ap
      else if bool_decide (ifName <> "") && bool_decide (ifName <> IfName pool)
      then ap
      else
        match ap with
        | None => Some k
        | Some cur =>
            let ap1 :=
              match pools !! cur with
              | Some c => if Priority c <? Priority pool then k else cur
              | None => cur
              end in
            let ap2 :=
              match pools !! ap1 with
              | Some c =>
                  if (size (Addresses c) <? size (Addresses pool))%nat
                  then k else ap1
              | None => ap1
              end in
            Some ap2
        end
  end.

(** [requestPool] (lines 366-437).  [order] is the order in which the loop
    visits the keys of [Pools].  The result is the key of the pool returned.
    Line 434 reads [ap.Id] whether or not [ap] is nil, so the call that finds
    no pool and has no error from [getPool] ends there. *)
Definition requestPool (fuel : nat) (order : list string) (as_ : addressSpace)
    (poolId subPoolId : string) (options : options_t) (v6 : bool)
  : addressSpace * outcome string :=
  let found :=
    if bool_decide (poolId <> "") then getPool fuel as_ poolId options
    else
      Some (as_,
            foldl (requestPool_visit (Pools as_) (opt options OptInterfaceName) v6)
                  None order,
            None) in
  match found with
  | None => (as_, OutOfFuel)
  | Some (as1, _, Some err) => (as1, Err err)
  | Some (as1, None, None) => (as1, Panic)
  | Some (as1, Some k, None) =>
      match Pools as1 !! k with
      | None => (as1, Panic)
      | Some ap =>
          (as_set_Pools
             (<[k := ap_set_RefCount (GoInt.add (RefCount ap) 1) ap]> (Pools as1))
             as1,
           Ok k)
      end
  end.

End Pool.

(** [releasePool] (lines 440-468). *)
Definition releasePool (as_ : addressSpace) (poolId : string)
  : addressSpace * outcome unit :=
  match Pools as_ !! poolId with
  | None => (as_, Err errAddressPoolNotFound)
  | Some ap =>
      if negb (isInUse ap) then (as_, Err errAddressPoolNotInUse)
      else
        let ap' := ap_set_RefCount (GoInt.sub (RefCount ap) 1) ap in
        if (ap_epoch ap' <? as_epoch as_) && negb (isInUse ap')
        then (as_set_Pools (delete poolId (Pools as_)) as_, Ok tt)
        else (as_set_Pools (<[poolId := ap']> (Pools as_)) as_, Ok tt)
  end.

(** ** AddressPool *)

(** [getInfo] (lines 474-498).  [order] is the order in which the loop
    visits the keys of [Addresses]. *)
Definition getInfo (order : list string) (ap : addressPool) : AddressPoolInfo :=
  let recs := omap (fun k => Addresses ap !! k) order in
  mkInfo (Subnet ap) (Gateway ap) [dnsHostProxyAddress]
         (Addr <$> filter (fun ar => unhealthy ar = true) recs)
         (IsIPv6 ap)
         (foldl (fun n ar => if InUse ar then n else GoInt.add n 1) 0 recs)
         (Z.of_nat (size (Addresses ap))).

(** The CIDR text that [requestAddress] returns (lines 585-590). *)
Definition cidr (ap : addressPool) (addr : Net.IP) : string :=
  Net.IPNet_String (Net.mkIPNet addr (Net.IPNet_Mask (Subnet ap))).

(** The record that lines 578-582 of [requestAddress] write to. *)
Definition take_record (ap : addressPool) (id k : string) (ar : addressRecord)
  : addressPool * outcome string :=
  let byId := if bool_decide (id <> "") then <[id := k]> (addrsByID ap)
              else addrsByID ap in
  (ap_set_addrsByID byId
     (ap_set_Addresses
        (<[k := ar_set_InUse true (ar_set_ID id ar)]> (Addresses ap)) ap),
   Ok (cidr ap (Addr ar))).

(** The loop of lines 565-570: the first record not in use, in the order
    the loop visits the keys. *)
Definition first_free (order : list string) (ap : addressPool) : option string :=
  List.find (fun k => match Addresses ap !! k with
                      | Some ar => negb (InUse ar)
                      | None => false
                      end) order.

(** [requestAddress] (lines 529-591).  The record made for the gateway at
    line 554 is in no map: writing to it changes nothing in the pool. *)
Definition requestAddress (order : list string) (ap : addressPool)
    (address : string) (options : options_t) : addressPool * outcome string :=
  let id := opt options OptAddressID in
  let any id :=
    match first_free order ap with
    | None => (ap, Err errNoAvailableAddresses)
    | Some k =>
        match Addresses ap !! k with
        | Some ar => take_record ap id k ar
        | None => (ap, Err errNoAvailableAddresses)
        end
    end in
  if bool_decide (address <> "") then
    match Addresses ap !! address with
    | None => (ap, Err errAddressNotFound)
    | Some ar =>
        if InUse ar && (bool_decide (id = "") || bool_decide (id <> ID ar))
        then (ap, Err errAddressInUse)
        else take_record ap id address ar
    end
  else if bool_decide (opt options OptAddressType = OptAddressTypeGateway) then
    (ap, Ok (cidr ap (Gateway ap)))
  else if bool_decide (id <> "") then
    match addrsByID ap !! id with
    | Some k =>
        match Addresses ap !! k with
        | Some ar => take_record ap id k ar
        | None => any id
        end
    | None => any id
    end
  else any id.

(** [releaseAddress] (lines 594-646).  [epoch] is [ap.as.epoch], the epoch of
    the space that holds the pool.  The record found lives under [k]; the
    entry deleted at line 642 is the one under [address]. *)
Definition releaseAddress (epoch : Z) (ap : addressPool) (address : string)
    (options : options_t) : addressPool * outcome unit :=
  let id := opt options OptAddressID in
  let release (k address : string) (ar : addressRecord) :=
    if bool_decide (id <> "") && bool_decide (id <> ID ar)
    then (ap, Err errAddressNotFound)
    else if negb (InUse ar) then (ap, Err errAddressNotInUse)
    else
      let byId := if bool_decide (ID ar <> "") then delete (ID ar) (addrsByID ap)
                  else addrsByID ap in
      let addrs := <[k := ar_set_InUse false (ar_set_ID "" ar)]> (Addresses ap) in
      let addrs := if ar_epoch ar <? epoch then delete address addrs else addrs in
      (ap_set_addrsByID byId (ap_set_Addresses addrs ap), Ok tt) in
  if bool_decide (address <> "") then
    match Addresses ap !! address with
    | None =>
        if bool_decide (address = Net.IP_String (Gateway ap)) then (ap, Ok tt)
        else (ap, Err errAddressNotFound)
    | Some ar => release address address ar
    end
  else if bool_decide (id <> "") then
    match addrsByID ap !! id with
    | Some k =>
        match Addresses ap !! k with
        | Some ar => release k (Net.IP_String (Addr ar)) ar
        | None => (ap, Err errAddressNotFound)
        end
    | None => (ap, Err errAddressNotFound)
    end
  else (ap, Err errAddressNotFound).

(** ** The address manager's view of its spaces (lines 147-175) *)

(** [getAddressSpace]. *)
Definition getAddressSpace (spaces : gmap string addressSpace) (id : string)
  : outcome addressSpace :=
  match spaces !! id with
  | None => Err errInvalidAddressSpace
  | Some as_ => Ok as_
  end.

(** [setAddressSpace], on the map of the spaces; the notification of the
    network plugin and the save to the store are not part of this model. *)
Definition setAddressSpace (spaces : gmap string addressSpace)
    (as_ : addressSpace) : gmap string addressSpace :=
  match spaces !! as_Id as_ with
  | None => <[as_Id as_ := as_]> spaces
  | Some as1 => <[as_Id as_ := merge as1 as_]> spaces
  end.

(** * Views of the states, and the states the instances use *)

Definition reconfirm (e : Z) (old : option addressRecord) (av : addressRecord) : addressRecord :=
  match old with
  | None => ar_set_epoch e av
  | Some ar => ar_set_unhealthy false (ar_set_epoch e ar)
  end.

Definition sweep_record (e : Z) (av : addressRecord) : option addressRecord :=
  if ar_epoch av =? e then Some av
  else if InUse av then Some (ar_set_unhealthy true av)
  else None.

Definition keeps_alive (e : Z) (av : addressRecord) : bool :=
  (ar_epoch av =? e) || InUse av.

Definition merge_records (e : Z) (A0 M : gmap string addressRecord) : gmap string addressRecord :=
  (map_fold (merge_address e) (A0, false) M).1.

Definition merged_pool (e : Z) (old : option addressPool) (pv : addressPool) : addressPool :=
  match old with
  | None => ap_set_epoch e pv
  | Some ap => ap_set_Addresses (merge_records e (Addresses ap) (Addresses pv)) ap
  end.

Definition alive (e : Z) (A : gmap string addressRecord) : Prop :=
  exists k av, A !! k = Some av /\ keeps_alive e av = true.

Definition swept_pool (e : Z) (pv : addressPool) : option addressPool :=
  if ap_epoch pv <? e then
    let r := map_fold (sweep_address e) (ap_epoch pv, Addresses pv) (Addresses pv) in
    let pv' := ap_set_epoch r.1 (ap_set_Addresses r.2 pv) in
    if (ap_epoch pv' <? e) && negb (isInUse pv') then None else Some pv'
  else Some pv.

Definition merge_used (as_ newas : addressSpace) : Prop :=
  exists pk pv, Pools newas !! pk = Some pv /\
                (Pools as_ !! pk = None \/ Addresses pv <> ∅).

(** What a merge can do with the new epoch (lines 188-216): take a pool that
    the live space does not have, take a record that the live pool does not
    have, or find a record that it has. *)
Definition pool_adopted (as_ newas : addressSpace) : Prop :=
  exists pk pv, Pools newas !! pk = Some pv /\ Pools as_ !! pk = None.

Definition record_adopted (as_ newas : addressSpace) : Prop :=
  exists pk pv ap ak av,
    Pools newas !! pk = Some pv /\ Pools as_ !! pk = Some ap /\
    Addresses pv !! ak = Some av /\ Addresses ap !! ak = None.

Definition record_reconfirmed (as_ newas : addressSpace) : Prop :=
  exists pk pv ap ak av ar,
    Pools newas !! pk = Some pv /\ Pools as_ !! pk = Some ap /\
    Addresses pv !! ak = Some av /\ Addresses ap !! ak = Some ar.

(** The keys of the records of a pool that are in use. *)
Definition in_use (ap : addressPool) : gset string :=
  dom (filter (fun kr => InUse kr.2 = true) (Addresses ap)).


Definition space_requestAddress (order : list string) (as_ : addressSpace)
    (poolId address : string) (options : options_t)
  : addressSpace * outcome string :=
  match getAddressPool as_ poolId with
  | Ok ap =>
      let r := requestAddress order ap address options in
      (as_set_Pools (<[poolId := r.1]> (Pools as_)) as_, r.2)
  | Err e => (as_, Err e)
  | Panic => (as_, Panic)
  | OutOfFuel => (as_, OutOfFuel)
  end.

Definition space_releaseAddress (as_ : addressSpace)
    (poolId address : string) (options : options_t)
  : addressSpace * outcome unit :=
  match getAddressPool as_ poolId with
  | Ok ap =>
      let r := releaseAddress (as_epoch as_) ap address options in
      (as_set_Pools (<[poolId := r.1]> (Pools as_)) as_, r.2)
  | Err e => (as_, Err e)
  | Panic => (as_, Panic)
  | OutOfFuel => (as_, OutOfFuel)
  end.

(** [newAddressRecord] on the pool that a space holds under [poolId], as the
    sources call it on the pool that [newAddressPool] returned. *)
Definition space_newAddressRecord (as_ : addressSpace) (poolId : string)
    (addr : Net.IP) : addressSpace :=
  match Pools as_ !! poolId with
  | Some ap =>
      as_set_Pools (<[poolId := (newAddressRecord ap addr).1.1]> (Pools as_)) as_
  | None => as_
  end.

(** The operations on an address space. *)
Inductive operation : Type :=
  | OpMerge (newas : addressSpace)
  | OpNewAddressPool (ifName nwName : string) (priority : Z) (subnet : Net.IPNet)
  | OpNewAddressRecord (poolId : string) (addr : Net.IP)
  | OpRequestPool (fuel : nat) (order : list string) (poolId subPoolId : string)
                  (options : options_t) (v6 : bool)
  | OpReleasePool (poolId : string)
  | OpRequestAddress (order : list string) (poolId address : string)
                     (options : options_t)
  | OpReleaseAddress (poolId address : string) (options : options_t).

Definition apply_op (parseIPv6 : string -> option Net.IP) (as_ : addressSpace)
    (op : operation) : addressSpace :=
  match op with
  | OpMerge newas => merge as_ newas
  | OpNewAddressPool ifName nwName priority subnet =>
      (newAddressPool as_ ifName nwName priority subnet).1.1
  | OpNewAddressRecord poolId addr => space_newAddressRecord as_ poolId addr
  | OpRequestPool fuel order poolId subPoolId options v6 =>
      (requestPool parseIPv6 fuel order as_ poolId subPoolId options v6).1
  | OpReleasePool poolId => (releasePool as_ poolId).1
  | OpRequestAddress order poolId address options =>
      (space_requestAddress order as_ poolId address options).1
  | OpReleaseAddress poolId address options =>
      (space_releaseAddress as_ poolId address options).1
  end.

Definition run (parseIPv6 : string -> option Net.IP) (as_ : addressSpace)
    (ops : list operation) : addressSpace :=
  foldl (apply_op parseIPv6) as_ ops.

(** ** Concrete states

    The address space that a source builds for one interface with one subnet
    (azure.go, lines 102-179): [newAddressSpace], then [newAddressPool] and a
    [newAddressRecord] for each address listed. *)
Definition snapshot (ifName : string) (priority : Z) (subnet : Net.IPNet)
    (addrs : list Net.IP) : addressSpace :=
  let r := newAddressPool (mkSpace LocalDefaultAddressSpaceId LocalScope ∅ 0)
                          ifName "" priority subnet in
  foldl (fun s a => space_newAddressRecord s r.1.2 a) r.1.1 addrs.

Definition ex_subnet : Net.IPNet := Net.mkIPNet [192; 168; 0; 0] [255; 255; 255; 0].
Definition ex_pool_id : string := "192.168.0.0/24".
Definition ex_options (id : string) : options_t := Some {[OptAddressID := id]}.

(** A space that took its first snapshot, with the address 192.168.0.2, and
    then gave that address to the client "c1". *)
Definition ex_live : addressSpace :=
  (space_requestAddress [] (snapshot "eth1" 0 ex_subnet [Net.IPv4 192 168 0 2])
                        ex_pool_id "192.168.0.2" (ex_options "c1")).1.

(** Later snapshots of the same subnet: one that lists no address, one that
    lists 192.168.0.3 only. *)
Definition ex_refresh_empty : addressSpace := snapshot "eth1" 0 ex_subnet [].
Definition ex_refresh_other : addressSpace :=
  snapshot "eth1" 0 ex_subnet [Net.IPv4 192 168 0 3].

(** The record of 192.168.0.2 in [ex_live]. *)
Definition ex_record : addressRecord :=
  mkRecord "c1" (Net.IPv4 192 168 0 2) true false 0.

(** The number of separators [sep] in a text. *)
Fixpoint count_sep (sep : ascii) (s : string) : nat :=
  match s with
  | EmptyString => O
  | String c rest => ((if Ascii.eqb c sep then 1 else 0) + count_sep sep rest)%nat
  end.

(** A pool id whose fields can be told apart in the wire form: none of them
    holds the separator. *)
Definition valid_pool_id (pid : addressPoolId) : Prop :=
  count_sep "|" (AsId pid) = O /\ count_sep "|" (pid_Subnet pid) = O
  /\ count_sep "|" (ChildSubnet pid) = O.

(** A space with two free IPv4 pools: 10.1.0.0/24 of priority 1 with one
    address, and 10.2.0.0/24 of priority 0 with two. *)
Definition ex_two_pools : addressSpace :=
  let s0 := mkSpace LocalDefaultAddressSpaceId LocalScope ∅ 0 in
  let a := newAddressPool s0 "eth0" "" 1
             (Net.mkIPNet [10; 1; 0; 0] [255; 255; 255; 0]) in
  let s1 := space_newAddressRecord a.1.1 a.1.2 (Net.IPv4 10 1 0 4) in
  let b := newAddressPool s1 "eth1" "" 0
             (Net.mkIPNet [10; 2; 0; 0] [255; 255; 255; 0]) in
  let s2 := space_newAddressRecord b.1.1 b.1.2 (Net.IPv4 10 2 0 4) in
  space_newAddressRecord s2 b.1.2 (Net.IPv4 10 2 0 5).

(** The records of the overlay pool of 10.0.0.0/30 made in a space of epoch
    [e]. *)
Definition overlay_records (e : Z) : gmap string addressRecord :=
  list_to_map
    [("10.0.0.0", mkRecord "" (Net.IPv4 10 0 0 0) true false e);
     ("10.0.0.1", mkRecord "" (Net.IPv4 10 0 0 1) true false e);
     ("10.0.0.2", mkRecord "" (Net.IPv4 10 0 0 2) false false e);
     ("10.0.0.3", mkRecord "" (Net.IPv4 10 0 0 3) true false e)].

(** A pool of 192.168.0.0/24 with the addresses 192.168.0.2 and 192.168.0.3,
    the first of them given to the client "c1". *)
Definition ex_pool : addressPool :=
  mkPool ex_pool_id "eth1" ex_subnet
         (GenerateAddress ex_subnet defaultGatewayHostId) ∅ ∅ false 0 0 0.

Definition ex_pool_shared : addressPool :=
  (requestAddress []
     (newAddressRecord (newAddressRecord ex_pool (Net.IPv4 192 168 0 2)).1.1
                       (Net.IPv4 192 168 0 3)).1.1
     "192.168.0.2" (ex_options "c1")).1.

(** The options of a request for an overlay pool of the network "ov". *)
Definition ex_overlay_options : gmap string string :=
  {[OptNetworkName := "ov"; OptOverlayNetwork := "1"]}.

(** The overlay pool of 10.0.0.0/30 in an empty space, once requested. *)
Definition ex_overlay_space : addressSpace :=
  (requestPool (fun _ => None) 5 []
     (mkSpace LocalDefaultAddressSpaceId LocalScope ∅ 0)
     "10.0.0.0/30" "" (Some ex_overlay_options) false).1.

(** A snapshot of another subnet. *)
Definition ex_refresh_new : addressSpace :=
  snapshot "eth2" 1 (Net.mkIPNet [10; 3; 0; 0] [255; 255; 0; 0])
           [Net.IPv4 10 3 0 4].

(** The pool of [ex_refresh_new]. *)
Definition ex_new_pool : addressPool :=
  (newAddressRecord
     (mkPool "10.3.0.0/16" "eth2" (Net.mkIPNet [10; 3; 0; 0] [255; 255; 0; 0])
        (GenerateAddress (Net.mkIPNet [10; 3; 0; 0] [255; 255; 0; 0])
                         defaultGatewayHostId)
        ∅ ∅ false 1 0 0)
     (Net.IPv4 10 3 0 4)).1.1.

(** The pointers of [addrsByID] are sound: an id is not empty, and the
    record it points to is one of [Addresses], in use under that id.  In
    such a pool no pointer dangles, which is what reading a pointer as a key
    of [Addresses] relies on. *)
Definition by_id_ok (ap : addressPool) : Prop :=
  forall id k, addrsByID ap !! id = Some k ->
    id <> "" /\ exists ar, Addresses ap !! k = Some ar /\ ID ar = id /\ InUse ar = true.

(** Every record is stored under the text of its address, as
    [newAddressRecord] stores it. *)
Definition keys_ok (ap : addressPool) : Prop :=
  forall k ar, Addresses ap !! k = Some ar -> k = Net.IP_String (Addr ar).

(** The pool of [ex_live], and the overlay pool of [ex_overlay_space]. *)
Definition ex_live_pool : addressPool :=
  ap_set_addrsByID {["c1" := "192.168.0.2"]}
    (ap_set_Addresses {["192.168.0.2" := ex_record]} ex_pool).

Definition ex_overlay_pool : addressPool :=
  mkPool "10.0.0.0/30ov" "" (Net.mkIPNet [10; 0; 0; 0] [255; 255; 255; 252])
         (Net.IPv4 10 0 0 1) (overlay_records 0) ∅ false 0 1 0.

(** No epoch of a pool or of a record is ahead of the epoch [e]. *)
Definition pool_epochs_ok (e : Z) (ap : addressPool) : Prop :=
  ap_epoch ap <= e
  /\ forall ak ar, Addresses ap !! ak = Some ar -> ar_epoch ar <= e.

Definition epochs_ok (as_ : addressSpace) : Prop :=
  forall pk ap, Pools as_ !! pk = Some ap -> pool_epochs_ok (as_epoch as_) ap.

(** The number that the bytes of an address stand for, the first byte the
    most significant. *)
Definition bytes_value (l : list Z) : Z := foldl (fun acc b => acc * 256 + b) 0 l.

Definition is_byte (b : Z) : Prop := 0 <= b < 256.

(** Every space of the manager is stored under its own id. *)
Definition spaces_ok (spaces : gmap string addressSpace) : Prop :=
  forall k s, spaces !! k = Some s -> as_Id s = k.

(** ** The Azure source (azure.go)

    The document that the host agent returns (lines 34-52), decoded, and the
    local interfaces with the text of their hardware address. *)
Record xmlIPAddress : Type := mkXmlIPAddress {
  Address : string;
  addr_IsPrimary : bool
}.

Record xmlIPSubnet : Type := mkXmlIPSubnet {
  Prefix : string;
  IPAddress : list xmlIPAddress
}.

Record xmlInterface : Type := mkXmlInterface {
  MacAddress : string;
  if_IsPrimary : bool;
  IPSubnet : list xmlIPSubnet
}.

Record netInterface : Type := mkNetInterface {
  Name : string;
  HardwareAddr : string
}.

(** What [refresh] returns after the query: the parse error of
    [net.ParseCIDR] for a prefix, or an error of the address manager. *)
Inductive refresh_error : Type :=
  | ParseError (text : string)
  | IpamError (e : error).

#[global] Instance error_eq_dec : EqDecision error.
Proof. solve_decision. Defined.

(** [strings.Replace(s, ":", "", -1)]. *)
Fixpoint remove_colons (s : string) : string :=
  match s with
  | EmptyString => EmptyString
  | String c rest =>
      if Ascii.eqb c ":" then remove_colons rest else String c (remove_colons rest)
  end.

Section Azure.

Variable parseIPv6 : string -> option Net.IP.

(** [strings.ToLower], which follows Unicode, is left open. *)
Variable ToLower : string -> string.

(** The loop over the local interfaces (lines 130-142): the name of the
    first interface whose address matches, or that any address matches
    when the document says "*". *)
Fixpoint find_interface (interfaces : list netInterface) (mac : string)
  : option string :=
  match interfaces with
  | [] => None
  | iface :: rest =>
      if bool_decide (ToLower (remove_colons (HardwareAddr iface)) = mac)
         || bool_decide (mac = "*")
      then Some (Name iface)
      else find_interface rest mac
  end.

(** The loop over the addresses of a subnet (lines 162-174), on the pool
    that [newAddressPool] returned. *)
Fixpoint refresh_addresses (ap : addressPool) (l : list xmlIPAddress)
  : addressPool * option error :=
  match l with
  | [] => (ap, None)
  | a :: rest =>
      if addr_IsPrimary a then refresh_addresses ap rest
      else
        match newAddressRecord ap (default [] (Net.ParseIP parseIPv6 (Address a))) with
        | (ap1, _, Some err) => (ap1, Some err)
        | (ap1, _, None) => refresh_addresses ap1 rest
        end
  end.

(** The loop over the subnets of an interface (lines 150-175).  The pool
    that [newAddressPool] returns is the one the space holds under the key
    returned; an error other than [errAddressExists] ends the refresh. *)
Fixpoint refresh_subnets (local : addressSpace) (ifName : string) (priority : Z)
    (l : list xmlIPSubnet) : addressSpace * option refresh_error :=
  match l with
  | [] => (local, None)
  | s :: rest =>
      match Net.ParseCIDR parseIPv6 (Prefix s) with
      | None => (local, Some (ParseError (Prefix s)))
      | Some (_, subnet) =>
          let r := newAddressPool local ifName "" priority subnet in
          let fatal :=
            match r.2 with
            | Some err =>
                if bool_decide (err <> errAddressExists) then Some err else None
            | None => None
            end in
          match fatal with
          | Some err => (r.1.1, Some (IpamError err))
          | None =>
              match Pools r.1.1 !! r.1.2 with
              | None => (r.1.1, None)
              | Some ap =>
                  match refresh_addresses ap (IPAddress s) with
                  | (ap', Some err) =>
                      (as_set_Pools (<[r.1.2 := ap']> (Pools r.1.1)) r.1.1,
                       Some (IpamError err))
                  | (ap', None) =>
                      refresh_subnets
                        (as_set_Pools (<[r.1.2 := ap']> (Pools r.1.1)) r.1.1)
                        ifName priority rest
                  end
              end
          end
      end
  end.

(** The loop over the interfaces of the document (lines 123-176). *)
Fixpoint refresh_interfaces (interfaces : list netInterface)
    (local : addressSpace) (doc : list xmlInterface)
  : addressSpace * option refresh_error :=
  match doc with
  | [] => (local, None)
  | i :: rest =>
      match find_interface interfaces (ToLower (MacAddress i)) with
      | None => refresh_interfaces interfaces local rest
      | Some ifName =>
          if bool_decide (ifName = "") then refresh_interfaces interfaces local rest
          else
            let priority := if if_IsPrimary i then 0 else 1 in
            match refresh_subnets local ifName priority (IPSubnet i) with
            | (local1, Some err) => (local1, Some err)
            | (local1, None) => refresh_interfaces interfaces local1 rest
            end
      end
  end.


End Azure.

(** A pool as a source builds it: not requested, and its records free. *)
Definition fresh_pool (ap : addressPool) : Prop :=
  RefCount ap = 0 /\ ap_epoch ap = 0 /\ addrsByID ap = ∅
  /\ forall k ar, Addresses ap !! k = Some ar ->
       ar = mkRecord "" (Addr ar) false false 0 /\ k = Net.IP_String (Addr ar).

Definition fresh_space (as_ : addressSpace) : Prop :=
  as_epoch as_ = 0 /\ forall pk ap, Pools as_ !! pk = Some ap -> fresh_pool ap.

(** A document with one interface whose subnet is listed twice, and the
    local interface it matches. *)
Definition ex_interfaces : list netInterface :=
  [mkNetInterface "eth1" "00:0d:3a:00:00:01"].

Definition ex_doc_twice : list xmlInterface :=
  [mkXmlInterface "000d3a000001" false
     [mkXmlIPSubnet "192.168.0.0/24"
        [mkXmlIPAddress "192.168.0.4" true; mkXmlIPAddress "192.168.0.5" false];
      mkXmlIPSubnet "192.168.0.0/24" [mkXmlIPAddress "192.168.0.6" false]]].

(** * Properties *)

Lemma wrap_small z : GoInt.min_int <= z <= GoInt.max_int -> GoInt.wrap z = z.
Proof.
  unfold GoInt.min_int, GoInt.max_int, GoInt.wrap. intros H.
  rewrite Z.mod_small; lia.
Qed.

Lemma merge_address_fold e (A0 : gmap string addressRecord) u0 (M : gmap string addressRecord) :
  (forall k, (map_fold (merge_address e) (A0, u0) M).1 !! k =
     match M !! k with
     | Some av => Some (reconfirm e (A0 !! k) av)
     | None => A0 !! k
     end)
  /\ ((map_fold (merge_address e) (A0, u0) M).2 = true <-> u0 = true \/ M <> ∅).
Proof.
  apply (map_fold_weak_ind (fun r m =>
    (forall k, r.1 !! k = match m !! k with
                          | Some av => Some (reconfirm e (A0 !! k) av)
                          | None => A0 !! k end)
    /\ (r.2 = true <-> u0 = true \/ m <> ∅))).
  - split.
    + intros k. by rewrite lookup_empty.
    + simpl. split; [intros ->; by left|]. by intros [->|?].
  - intros i x m r Hi [IH1 IH2]. split.
    + intros k. unfold merge_address. pose proof (IH1 i) as Hri. rewrite Hi in Hri.
      rewrite Hri. destruct (decide (k = i)) as [->|Hne].
      * rewrite lookup_insert_eq. destruct (A0 !! i); simpl; by rewrite lookup_insert_eq.
      * rewrite (lookup_insert_ne m) by done.
        destruct (A0 !! i); simpl; rewrite lookup_insert_ne by done; apply IH1.
    + unfold merge_address. pose proof (insert_non_empty m i x).
      destruct (r.1 !! i); simpl; split; auto.
Qed.

Lemma sweep_address_fold e pe0 (A0 M : gmap string addressRecord) :
  M ⊆ A0 ->
  (forall k, (map_fold (sweep_address e) (pe0, A0) M).2 !! k =
     match M !! k with
     | Some av => sweep_record e av
     | None => A0 !! k
     end)
  /\ ((exists k av, M !! k = Some av /\ keeps_alive e av = true) ->
      (map_fold (sweep_address e) (pe0, A0) M).1 = e)
  /\ (~ (exists k av, M !! k = Some av /\ keeps_alive e av = true) ->
      (map_fold (sweep_address e) (pe0, A0) M).1 = pe0).
Proof.
  apply (map_fold_weak_ind (fun r m => m ⊆ A0 ->
    (forall k, r.2 !! k = match m !! k with
                          | Some av => sweep_record e av
                          | None => A0 !! k end)
    /\ ((exists k av, m !! k = Some av /\ keeps_alive e av = true) -> r.1 = e)
    /\ (~ (exists k av, m !! k = Some av /\ keeps_alive e av = true) -> r.1 = pe0))).
  - intros _. split; [|split].
    + intros k. by rewrite lookup_empty.
    + intros (k & av & H & _). by rewrite lookup_empty in H.
    + done.
  - intros i x m r Hi IH Hsub.
    assert (Hm : m ⊆ A0).
    { etrans; [|exact Hsub]. by apply insert_subseteq. }
    assert (Hx : A0 !! i = Some x).
    { eapply lookup_weaken; [|exact Hsub]. apply lookup_insert_eq. }
    destruct (IH Hm) as (IH1 & IH2 & IH3). split; [|split].
    + intros k. unfold sweep_address, sweep_record.
      destruct (decide (k = i)) as [->|Hne].
      * rewrite lookup_insert_eq.
        destruct (ar_epoch x =? e) eqn:E1; simpl.
        -- rewrite IH1, Hi. done.
        -- destruct (InUse x); simpl.
           ++ by rewrite lookup_insert_eq.
           ++ by rewrite lookup_delete_eq.
      * rewrite (lookup_insert_ne m) by done.
        destruct (ar_epoch x =? e); simpl; [apply IH1|].
        destruct (InUse x); simpl.
        -- rewrite lookup_insert_ne by done. apply IH1.
        -- rewrite lookup_delete_ne by done. apply IH1.
    + intros (k & av & Hk & Hal). unfold sweep_address.
      destruct (decide (k = i)) as [->|Hne].
      * rewrite lookup_insert_eq in Hk. simplify_eq. unfold keeps_alive in Hal.
        destruct (ar_epoch av =? e); simpl in *; [done|]. by rewrite Hal.
      * rewrite lookup_insert_ne in Hk by done.
        destruct (ar_epoch x =? e); simpl; [done|].
        destruct (InUse x); simpl; [done|]. apply IH2. eauto.
    + intros Hno. unfold sweep_address.
      assert (keeps_alive e x = false) as Hx'.
      { destruct (keeps_alive e x) eqn:E; [|done]. exfalso. apply Hno.
        exists i, x. by rewrite lookup_insert_eq. }
      unfold keeps_alive in Hx'. apply orb_false_elim in Hx' as [-> ->]. simpl.
      apply IH3. intros (k & av & Hk & Hal). apply Hno. exists k, av. split; [|done].
      rewrite lookup_insert_ne; [done|]. intros ->. by rewrite Hi in Hk.
Qed.

Lemma merge_records_lookup e A0 M k :
  merge_records e A0 M !! k =
  match M !! k with
  | Some av => Some (reconfirm e (A0 !! k) av)
  | None => A0 !! k
  end.
Proof. apply merge_address_fold. Qed.

Lemma merge_address_fold_fst e A0 u M :
  (map_fold (merge_address e) (A0, u) M).1 = merge_records e A0 M.
Proof.
  apply map_eq. intros k. rewrite merge_records_lookup. apply merge_address_fold.
Qed.

Lemma merge_pool_fold e (L : gmap string addressPool) u0 (N : gmap string addressPool) :
  (forall pk, (map_fold (merge_pool e) (L, u0) N).1 !! pk =
     match N !! pk with
     | Some pv => Some (merged_pool e (L !! pk) pv)
     | None => L !! pk
     end)
  /\ ((map_fold (merge_pool e) (L, u0) N).2 = true <->
      u0 = true \/ exists pk pv, N !! pk = Some pv /\ (L !! pk = None \/ Addresses pv <> ∅)).
Proof.
  apply (map_fold_weak_ind (fun r m =>
    (forall pk, r.1 !! pk = match m !! pk with
                            | Some pv => Some (merged_pool e (L !! pk) pv)
                            | None => L !! pk end)
    /\ (r.2 = true <->
        u0 = true \/ exists pk pv, m !! pk = Some pv /\ (L !! pk = None \/ Addresses pv <> ∅)))).
  - split.
    + intros k. by rewrite lookup_empty.
    + simpl. split; [intros ->; by left|].
      intros [->|(pk & pv & H & _)]; [done|]. by rewrite lookup_empty in H.
  - intros i x m r Hi [IH1 IH2].
    assert (Hri : r.1 !! i = L !! i) by (by rewrite IH1, Hi).
    split.
    + intros k. unfold merge_pool. rewrite Hri.
      destruct (decide (k = i)) as [->|Hne].
      * rewrite lookup_insert_eq.
        destruct (L !! i) as [ap|]; simpl; rewrite lookup_insert_eq; [|done].
        by rewrite merge_address_fold_fst.
      * rewrite (lookup_insert_ne m) by done.
        destruct (L !! i); simpl; rewrite lookup_insert_ne by done; apply IH1.
    + unfold merge_pool. rewrite Hri.
      destruct (L !! i) as [ap|] eqn:HL; simpl.
      * destruct (merge_address_fold e (Addresses ap) r.2 (Addresses x)) as [_ ->].
        rewrite IH2. split.
        -- intros [[->|(pk & pv & Hk & Hc)]|Hne]; [by left| |].
           ++ right. exists pk, pv. split; [|done].
              rewrite lookup_insert_ne; [done|]. intros ->. by rewrite Hi in Hk.
           ++ right. exists i, x. rewrite lookup_insert_eq. split; [done|by right].
        -- intros [->|(pk & pv & Hk & Hc)]; [by left; left|].
           destruct (decide (pk = i)) as [->|Hne].
           ++ rewrite lookup_insert_eq in Hk. simplify_eq.
              destruct Hc as [Hc|Hc]; [congruence|by right].
           ++ rewrite lookup_insert_ne in Hk by done. left. right. eauto.
      * split; [|done]. intros _. right. exists i, x. rewrite lookup_insert_eq.
        split; [done|by left].
Qed.

Lemma swept_addresses e pe0 (A : gmap string addressRecord) :
  (map_fold (sweep_address e) (pe0, A) A).2 = omap (sweep_record e) A.
Proof.
  apply map_eq. intros k. rewrite lookup_omap.
  destruct (sweep_address_fold e pe0 A A) as [H _]; [done|].
  rewrite H. by destruct (A !! k).
Qed.

Lemma sweep_pool_fold e (P0 M : gmap string addressPool) :
  M ⊆ P0 ->
  forall k, map_fold (sweep_pool e) P0 M !! k =
     match M !! k with
     | Some pv => swept_pool e pv
     | None => P0 !! k
     end.
Proof.
  apply (map_fold_weak_ind (fun r m => m ⊆ P0 ->
    forall k, r !! k = match m !! k with
                       | Some pv => swept_pool e pv
                       | None => P0 !! k end)).
  - intros _ k. by rewrite lookup_empty.
  - intros i x m r Hi IH Hsub.
    assert (Hm : m ⊆ P0).
    { etrans; [|exact Hsub]. by apply insert_subseteq. }
    assert (Hx : P0 !! i = Some x).
    { eapply lookup_weaken; [|exact Hsub]. apply lookup_insert_eq. }
    intros k. unfold sweep_pool, swept_pool.
    destruct (decide (k = i)) as [->|Hne].
    + rewrite lookup_insert_eq.
      destruct (ap_epoch x <? e); [|by rewrite (IH Hm), Hi].
      match goal with |- context [if ?c then _ else _] => destruct c end.
      * by rewrite lookup_delete_eq.
      * by rewrite lookup_insert_eq.
    + rewrite (lookup_insert_ne m) by done.
      destruct (ap_epoch x <? e); [|by apply IH].
      match goal with |- context [if ?c then _ else _] => destruct c end.
      * rewrite lookup_delete_ne by done. by apply IH.
      * rewrite lookup_insert_ne by done. by apply IH.
Qed.

Lemma merge_epoch_used as_ newas :
  merge_used as_ newas ->
  as_epoch (merge as_ newas) = GoInt.add (as_epoch as_) 1.
Proof.
  intros H. unfold merge. simpl.
  destruct (merge_pool_fold (GoInt.add (as_epoch as_) 1) (Pools as_) false (Pools newas))
    as [_ Hu].
  assert ((map_fold (merge_pool (GoInt.add (as_epoch as_) 1)) (Pools as_, false) (Pools newas)).2 = true) as ->.
  { apply Hu. by right. }
  done.
Qed.

Lemma merge_epoch_unused as_ newas :
  ~ merge_used as_ newas ->
  as_epoch (merge as_ newas) = as_epoch as_.
Proof.
  intros H. unfold merge. simpl.
  destruct (merge_pool_fold (GoInt.add (as_epoch as_) 1) (Pools as_) false (Pools newas))
    as [_ Hu].
  destruct ((map_fold (merge_pool (GoInt.add (as_epoch as_) 1)) (Pools as_, false) (Pools newas)).2); [|done].
  destruct Hu as [Hu _]. destruct (Hu eq_refl) as [?|?]; [done|]. by destruct H.
Qed.

Lemma merge_lookup as_ newas pk :
  Pools (merge as_ newas) !! pk =
  match Pools newas !! pk with
  | Some pv => swept_pool (as_epoch (merge as_ newas))
                 (merged_pool (GoInt.add (as_epoch as_) 1) (Pools as_ !! pk) pv)
  | None => Pools as_ !! pk ≫= swept_pool (as_epoch (merge as_ newas))
  end.
Proof.
  unfold merge. simpl.
  destruct (merge_pool_fold (GoInt.add (as_epoch as_) 1) (Pools as_) false (Pools newas))
    as [Hl _].
  rewrite sweep_pool_fold by done. rewrite Hl.
  destruct (Pools newas !! pk); [done|]. by destruct (Pools as_ !! pk).
Qed.

Lemma add_one e : GoInt.min_int <= e < GoInt.max_int -> GoInt.add e 1 = e + 1.
Proof.
  intros H. unfold GoInt.add. apply wrap_small.
  unfold GoInt.min_int, GoInt.max_int in *. lia.
Qed.

Lemma merge_used_dec as_ newas : merge_used as_ newas \/ ~ merge_used as_ newas.
Proof.
  destruct (merge_pool_fold 0 (Pools as_) false (Pools newas)) as [_ Hu].
  destruct ((map_fold (merge_pool 0) (Pools as_, false) (Pools newas)).2).
  - destruct Hu as [Hu _]. destruct (Hu eq_refl) as [?|?]; [done|by left].
  - right. intros H. assert (false = true); [|done]. apply Hu. by right.
Qed.

Lemma merge_used_iff as_ newas :
  merge_used as_ newas <->
  pool_adopted as_ newas \/ record_adopted as_ newas \/ record_reconfirmed as_ newas.
Proof.
  split.
  - intros (pk & pv & Hn & [Hl|Hne]).
    + left. by exists pk, pv.
    + destruct (Pools as_ !! pk) as [ap|] eqn:Hl.
      * apply map_choose in Hne as (ak & av & Hav).
        destruct (Addresses ap !! ak) as [ar|] eqn:Har.
        -- right. right. by exists pk, pv, ap, ak, av, ar.
        -- right. left. by exists pk, pv, ap, ak, av.
      * left. by exists pk, pv.
  - intros [(pk & pv & Hn & Hl)|[(pk & pv & ap & ak & av & Hn & Hl & Hav & _)
                                |(pk & pv & ap & ak & av & ar & Hn & Hl & Hav & _)]].
    + exists pk, pv. auto.
    + exists pk, pv. split; [done|]. right. intros E. rewrite E in Hav. by rewrite lookup_empty in Hav.
    + exists pk, pv. split; [done|]. right. intros E. rewrite E in Hav. by rewrite lookup_empty in Hav.
Qed.

Lemma newAddressPool_epoch as_ ifName nwName priority subnet :
  as_epoch (newAddressPool as_ ifName nwName priority subnet).1.1 = as_epoch as_.
Proof. unfold newAddressPool. by destruct (Pools as_ !! _). Qed.

Lemma getPool_epoch p6 fuel as_ poolId options as' k err :
  getPool p6 fuel as_ poolId options = Some (as', k, err) ->
  as_epoch as' = as_epoch as_.
Proof.
  unfold getPool. intros H.
  destruct (Pools as_ !! poolId); [by simplify_eq|].
  destruct options as [m|]; [|by simplify_eq].
  destruct (bool_decide _); [by simplify_eq|].
  destruct (Pools as_ !! _); [by simplify_eq|].
  destruct (bool_decide _); [by simplify_eq|].
  destruct (Net.ParseCIDR p6 poolId) as [[ip ipnet]|]; [|by simplify_eq].
  pose proof (newAddressPool_epoch as_ "" (opt (Some m) OptNetworkName) 0 ipnet) as Hep.
  destruct (newAddressPool as_ "" (opt (Some m) OptNetworkName) 0 ipnet) as [[as1 k1] e1].
  simpl in Hep. destruct e1; [by simplify_eq|].
  destruct (Pools as1 !! k1); [|by simplify_eq].
  destruct (populateIPAddresses p6 fuel a ip ipnet) as [[ap' ?]|]; [|done].
  by simplify_eq.
Qed.

Lemma requestPool_epoch p6 fuel order as_ poolId subPoolId options v6 :
  as_epoch (requestPool p6 fuel order as_ poolId subPoolId options v6).1 = as_epoch as_.
Proof.
  unfold requestPool.
  destruct (bool_decide (poolId <> "")).
  - destruct (getPool p6 fuel as_ poolId options) as [[[as1 k] err]|] eqn:E; [|done].
    apply getPool_epoch in E.
    destruct k as [k|], err; try done.
    destruct (Pools as1 !! k); done.
  - destruct (foldl _ _ _) as [k|]; [|done]. destruct (Pools as_ !! k); done.
Qed.

Lemma releasePool_epoch as_ poolId :
  as_epoch (releasePool as_ poolId).1 = as_epoch as_.
Proof.
  unfold releasePool. destruct (Pools as_ !! poolId); [|done].
  destruct (negb _); [done|]. by destruct (_ && _).
Qed.

Lemma apply_op_epoch p6 as_ op :
  GoInt.min_int <= as_epoch as_ < GoInt.max_int ->
  as_epoch as_ <= as_epoch (apply_op p6 as_ op) <= as_epoch as_ + 1.
Proof.
  intros Hb. destruct op; unfold apply_op.
  - destruct (merge_used_dec as_ newas) as [H|H].
    + rewrite merge_epoch_used, add_one by done. lia.
    + rewrite merge_epoch_unused by done. lia.
  - rewrite newAddressPool_epoch. lia.
  - unfold space_newAddressRecord. destruct (Pools as_ !! poolId); simpl; lia.
  - rewrite requestPool_epoch. lia.
  - rewrite releasePool_epoch. lia.
  - unfold space_requestAddress, getAddressPool. destruct (Pools as_ !! poolId); simpl; lia.
  - unfold space_releaseAddress, getAddressPool. destruct (Pools as_ !! poolId); simpl; lia.
Qed.

Lemma run_epoch p6 ops : forall as_,
  GoInt.min_int <= as_epoch as_ ->
  as_epoch as_ + Z.of_nat (length ops) <= GoInt.max_int ->
  as_epoch as_ <= as_epoch (run p6 as_ ops) <= as_epoch as_ + Z.of_nat (length ops).
Proof.
  induction ops as [|op ops IH]; intros as_ Hlo Hhi; simpl in *.
  - unfold run. simpl. lia.
  - pose proof (apply_op_epoch p6 as_ op ltac:(lia)) as H1.
    specialize (IH (apply_op p6 as_ op) ltac:(lia) ltac:(lia)).
    unfold run in *. simpl. lia.
Qed.

(** C2: a merge leaves the epoch of the space as it was or adds exactly one to it; the epoch is greater after the merge if and only if the merge adopted a pool, adopted a record or reconfirmed a record; and no sequence of operations on the space lowers the epoch.  The epoch is a 64-bit integer: the statement is for epochs that the additions do not wrap around. *)
Theorem merge_epoch_monotone (parseIPv6 : string -> option Net.IP)
    (as_ newas : addressSpace) (ops : list operation) :
  GoInt.min_int <= as_epoch as_ < GoInt.max_int ->
  as_epoch as_ + Z.of_nat (length ops) <= GoInt.max_int ->
  (as_epoch (merge as_ newas) = as_epoch as_ \/
   as_epoch (merge as_ newas) = as_epoch as_ + 1)
  /\ (as_epoch as_ < as_epoch (merge as_ newas) <->
      pool_adopted as_ newas \/ record_adopted as_ newas \/
      record_reconfirmed as_ newas)
  /\ as_epoch as_ <= as_epoch (run parseIPv6 as_ ops).
Proof.
  intros Hb Hops. rewrite <- merge_used_iff. split; [|split].
  - destruct (merge_used_dec as_ newas) as [H|H].
    + right. by rewrite merge_epoch_used, add_one.
    + left. by rewrite merge_epoch_unused.
  - split.
    + intros Hlt. destruct (merge_used_dec as_ newas) as [H|H]; [done|].
      rewrite merge_epoch_unused in Hlt by done. lia.
    + intros H. rewrite merge_epoch_used, add_one by done. lia.
  - apply run_epoch; lia.
Qed.

Lemma swept_pool_fresh e pv : e <= ap_epoch pv -> swept_pool e pv = Some pv.
Proof.
  intros H. unfold swept_pool.
  destruct (ap_epoch pv <? e) eqn:E; [|done]. apply Z.ltb_lt in E. lia.
Qed.

Lemma swept_pool_alive e pv :
  ap_epoch pv < e -> alive e (Addresses pv) ->
  swept_pool e pv =
  Some (ap_set_epoch e (ap_set_Addresses (omap (sweep_record e) (Addresses pv)) pv)).
Proof.
  intros Hlt Hal. unfold swept_pool.
  destruct (ap_epoch pv <? e) eqn:E; [|apply Z.ltb_ge in E; lia].
  rewrite swept_addresses.
  destruct (sweep_address_fold e (ap_epoch pv) (Addresses pv) (Addresses pv))
    as (_ & H1 & _); [done|].
  rewrite (H1 Hal). simpl. by rewrite Z.ltb_irrefl.
Qed.

Lemma swept_pool_dead e pv :
  ap_epoch pv < e -> ~ alive e (Addresses pv) ->
  swept_pool e pv =
  if isInUse pv
  then Some (ap_set_Addresses (omap (sweep_record e) (Addresses pv)) pv)
  else None.
Proof.
  intros Hlt Hal. unfold swept_pool.
  destruct (ap_epoch pv <? e) eqn:E; [|apply Z.ltb_ge in E; lia].
  rewrite swept_addresses.
  destruct (sweep_address_fold e (ap_epoch pv) (Addresses pv) (Addresses pv))
    as (_ & _ & H2); [done|].
  rewrite (H2 Hal). simpl. rewrite E. unfold isInUse. simpl.
  destruct (0 <? RefCount pv); simpl; [|done]. by destruct pv.
Qed.

Lemma releaseAddress_registered epoch ap ak ar options :
  ak <> "" -> Addresses ap !! ak = Some ar -> InUse ar = true ->
  opt options OptAddressID = "" \/ opt options OptAddressID = ID ar ->
  releaseAddress epoch ap ak options =
  (ap_set_addrsByID
     (if bool_decide (ID ar <> "") then delete (ID ar) (addrsByID ap)
      else addrsByID ap)
     (ap_set_Addresses
        (if ar_epoch ar <? epoch then delete ak (Addresses ap)
         else <[ak := ar_set_InUse false (ar_set_ID "" ar)]> (Addresses ap))
        ap),
   Ok tt).
Proof.
  intros Hak Har Huse Hid. unfold releaseAddress.
  rewrite bool_decide_eq_true_2 by done. rewrite Har.
  assert (bool_decide (opt options OptAddressID <> "")
          && bool_decide (opt options OptAddressID <> ID ar) = false) as ->.
  { destruct Hid as [->| ->].
    - by rewrite (bool_decide_eq_false_2 ("" <> "")) by (intros H; by apply H).
    - rewrite (bool_decide_eq_false_2 (ID ar <> ID ar)) by (intros H; by apply H).
      by rewrite andb_false_r. }
  rewrite Huse. simpl.
  destruct (ar_epoch ar <? epoch); [|done]. by rewrite delete_insert_eq.
Qed.

Lemma requestAddress_registered order ap ak ar options :
  ak <> "" -> Addresses ap !! ak = Some ar -> InUse ar = false ->
  requestAddress order ap ak options =
  take_record ap (opt options OptAddressID) ak ar.
Proof.
  intros Hak Har Huse. unfold requestAddress.
  rewrite bool_decide_eq_true_2 by done. rewrite Har, Huse. done.
Qed.


(** C10: a merge that adopts a pool [pk] which the live space did not have adds one to the epoch of the space and stores the pool with the new epoch and with its records as the snapshot had them: each record keeps its epoch, which is below the new epoch of the space when it is at most the old one (a snapshot makes its records at epoch 0).  Hence releasing an address of the adopted pool, one that was in use or one that is requested first, deletes its record. *)
Theorem merge_adopted_pool_release (as_ newas : addressSpace) (pk : string)
    (pv : addressPool) :
  GoInt.min_int <= as_epoch as_ < GoInt.max_int ->
  Pools as_ !! pk = None ->
  Pools newas !! pk = Some pv ->
  let as' := merge as_ newas in
  as_epoch as' = as_epoch as_ + 1
  /\ Pools as' !! pk = Some (ap_set_epoch (as_epoch as') pv)
  /\ forall ak ar order options,
       Addresses pv !! ak = Some ar -> ak <> "" ->
       ar_epoch ar <= as_epoch as_ ->
       ar_epoch ar < as_epoch as'
       /\ (InUse ar = true ->
           opt options OptAddressID = "" \/ opt options OptAddressID = ID ar ->
           exists ap'',
             releaseAddress (as_epoch as') (ap_set_epoch (as_epoch as') pv)
                            ak options = (ap'', Ok tt)
             /\ Addresses ap'' !! ak = None)
       /\ (InUse ar = false ->
           exists ap1 ap2 c,
             requestAddress order (ap_set_epoch (as_epoch as') pv) ak options
               = (ap1, Ok c)
             /\ releaseAddress (as_epoch as') ap1 ak options = (ap2, Ok tt)
             /\ Addresses ap2 !! ak = None).
Proof.
  intros Hb Hl Hn as'. subst as'.
  assert (Hused : merge_used as_ newas) by (exists pk, pv; auto).
  pose proof (merge_epoch_used _ _ Hused) as He.
  pose proof He as He'. rewrite add_one in He' by done.
  split; [done|]. split.
  { rewrite merge_lookup, Hn, Hl, He. unfold merged_pool.
    by rewrite swept_pool_fresh. }
  clear He. set (e' := as_epoch (merge as_ newas)) in *. clearbody e'.
  intros ak ar order options Har Hak Hre.
  assert (Hlt : (ar_epoch ar <? e') = true) by (apply Z.ltb_lt; lia).
  split; [lia|]. split.
  - intros Huse Hid. eexists. split.
    + by apply (releaseAddress_registered _ _ ak ar).
    + simpl. rewrite Hlt. apply lookup_delete_eq.
  - intros Huse. eexists. eexists. eexists. split.
    + rewrite (requestAddress_registered _ _ ak ar) by done. reflexivity.
    + split.
      * apply (releaseAddress_registered _ _ ak
                 (ar_set_InUse true (ar_set_ID (opt options OptAddressID) ar)));
          [done|simpl; apply lookup_insert_eq|done|].
        simpl. by right.
      * simpl. rewrite Hlt. apply lookup_delete_eq.
Qed.



(** ** Pool ids *)

Lemma split_length sep s : length (Net.split sep s) = S (count_sep sep s).
Proof.
  induction s as [|c s IH]; simpl; [done|].
  destruct (Ascii.eqb c sep); simpl; [by rewrite IH|].
  destruct (Net.split sep s); simpl in *; [done|lia].
Qed.

Lemma split_no_sep sep s : count_sep sep s = O -> Net.split sep s = [s].
Proof.
  induction s as [|c s IH]; simpl; [done|].
  destruct (Ascii.eqb c sep); simpl; [done|].
  intros H. by rewrite IH.
Qed.

Lemma split_app sep a b :
  count_sep sep a = O ->
  Net.split sep (a +:+ String sep b) = a :: Net.split sep b.
Proof.
  induction a as [|c a IH]; simpl.
  - intros _. by rewrite Ascii.eqb_refl.
  - destruct (Ascii.eqb c sep); simpl; [done|].
    intros H. by rewrite IH.
Qed.

Lemma string_app_assoc (a b c : string) : (a +:+ b) +:+ c = a +:+ (b +:+ c).
Proof.
  induction a as [|x a IH]; [done|].
  change (String x ((a +:+ b) +:+ c) = String x (a +:+ (b +:+ c))).
  by rewrite IH.
Qed.

(** C9: parsing the text of a pool id whose fields hold no pipe gives the pool id back; parsing a text with three pipes or more fails with errInvalidPoolId. *)
Theorem pool_id_round_trip (pid : addressPoolId) (s : string) :
  (valid_pool_id pid ->
   NewAddressPoolIdFromString (addressPoolId_String pid) = Ok pid)
  /\ ((3 <= count_sep "|" s)%nat ->
      NewAddressPoolIdFromString s = Err errInvalidPoolId).
Proof.
  split.
  - intros (Ha & Hs & Hc). destruct pid as [a sn c]; simpl in *.
    unfold NewAddressPoolIdFromString, addressPoolId_String; simpl.
    case_bool_decide as Hne.
    + rewrite !string_app_assoc.
      change ("|" +:+ sn +:+ "|" +:+ c) with (String "|" (sn +:+ String "|" c)).
      rewrite (split_app _ a) by done.
      rewrite (split_app _ sn) by done.
      rewrite (split_no_sep _ c) by done. done.
    + assert (c = "") as -> by (by destruct (decide (c = "")); [|exfalso; auto]).
      change (a +:+ "|" +:+ sn) with (a +:+ String "|" sn).
      rewrite (split_app _ a) by done.
      rewrite (split_no_sep _ sn) by done. done.
  - intros H. unfold NewAddressPoolIdFromString.
    rewrite split_length.
    destruct (3 <? S (count_sep "|" s))%nat eqn:E; [done|].
    apply Nat.ltb_ge in E. lia.
Qed.

(** C9, an instance: a pool id with a child subnet, and a text with three pipes. *)
Lemma pool_id_round_trip_witness :
  NewAddressPoolIdFromString
    (addressPoolId_String (NewAddressPoolId "local" "10.0.0.0/24" "10.0.0.0/28"))
    = Ok (NewAddressPoolId "local" "10.0.0.0/24" "10.0.0.0/28")
  /\ NewAddressPoolIdFromString "local|10.0.0.0/24|10.0.0.0/28|x"
     = Err errInvalidPoolId.
Proof.
  split.
  - apply (proj1 (pool_id_round_trip
                    (NewAddressPoolId "local" "10.0.0.0/24" "10.0.0.0/28") "")).
    vm_compute. auto.
  - apply (proj2 (pool_id_round_trip (NewAddressPoolId "" "" "")
                    "local|10.0.0.0/24|10.0.0.0/28|x")).
    vm_compute. lia.
Defined.

(** ** Looking a pool up *)




(** ** requestPool *)

(** C4 (the code departs from the specification): a request for a pool by an id that the space does not hold, with no network name among the options, does not fail with errAddressPoolNotFound: [getPool] returns no pool and no error, and [requestPool] dereferences the nil pool. *)
Theorem requestPool_unknown_pool_nil_dereference
    (parseIPv6 : string -> option Net.IP) (fuel : nat) (order : list string)
    (as_ : addressSpace) (poolId subPoolId : string) (options : options_t)
    (v6 : bool) :
  poolId <> "" ->
  Pools as_ !! poolId = None ->
  opt options OptNetworkName = "" ->
  requestPool parseIPv6 fuel order as_ poolId subPoolId options v6 = (as_, Panic).
Proof.
  intros Hp Hl Hn. unfold requestPool, getPool.
  rewrite bool_decide_eq_true_2 by done. rewrite Hl.
  destruct options as [m|]; [|done].
  rewrite Hn. rewrite bool_decide_eq_true_2 by done. done.
Qed.

(** C4, an instance: the pool 10.9.0.0/16 requested from [ex_live] with no options. *)
Lemma requestPool_unknown_pool_nil_dereference_witness :
  requestPool (fun _ => None) 0 [] ex_live "10.9.0.0/16" "" None false
  = (ex_live, Panic).
Proof.
  apply requestPool_unknown_pool_nil_dereference.
  - discriminate.
  - vm_compute. reflexivity.
  - reflexivity.
Defined.

(** C3 (the code departs from the specification): when the loop of [requestPool] visits a candidate pool [ka] and then a candidate [kb] of strictly lower priority that has more addresses, the pool selected is [kb]: the number of addresses is compared between pools of different priorities too. *)
Theorem requestPool_capacity_beats_priority
    (parseIPv6 : string -> option Net.IP) (fuel : nat) (as_ : addressSpace)
    (ka kb subPoolId : string) (a b : addressPool) (options : options_t)
    (v6 : bool) :
  ka <> kb ->
  Pools as_ !! ka = Some a ->
  Pools as_ !! kb = Some b ->
  RefCount a = 0 -> RefCount b = 0 ->
  IsIPv6 a = v6 -> IsIPv6 b = v6 ->
  opt options OptInterfaceName = "" ->
  Priority b < Priority a ->
  (size (Addresses a) < size (Addresses b))%nat ->
  (requestPool parseIPv6 fuel [ka; kb] as_ "" subPoolId options v6).2 = Ok kb.
Proof.
  intros Hk Ha Hb Hra Hrb Hva Hvb Hif Hp Hs.
  unfold requestPool. rewrite bool_decide_eq_false_2 by auto.
  simpl foldl. unfold requestPool_visit. rewrite Hif, Ha, Hb. unfold isInUse.
  rewrite Hra, Hrb, Hva, Hvb. simpl.
  rewrite Bool.eqb_reflx. simpl. rewrite Ha.
  destruct (Priority a <? Priority b) eqn:E; [apply Z.ltb_lt in E; lia|].
  rewrite Ha.
  destruct (size (Addresses a) <? size (Addresses b))%nat eqn:E2;
    [|apply Nat.ltb_ge in E2; lia].
  rewrite Hb. done.
Qed.

(** C3, an instance: the pools of [ex_two_pools], of priorities 1 and 0 with one and two addresses. *)
Lemma requestPool_capacity_beats_priority_witness :
  (requestPool (fun _ => None) 0 ["10.1.0.0/24"; "10.2.0.0/24"] ex_two_pools
               "" "" None false).2 = Ok "10.2.0.0/24".
Proof.
  eapply (requestPool_capacity_beats_priority _ _ ex_two_pools).
  - discriminate.
  - vm_compute. reflexivity.
  - vm_compute. reflexivity.
  - reflexivity.
  - reflexivity.
  - reflexivity.
  - reflexivity.
  - reflexivity.
  - vm_compute. reflexivity.
  - vm_compute. lia.
Defined.

Lemma overlay_populate (parseIPv6 : string -> option Net.IP) (n : nat)
    (ap : addressPool) :
  Subnet ap = Net.mkIPNet [10; 0; 0; 0] [255; 255; 255; 252] ->
  Addresses ap = ∅ ->
  populateIPAddresses parseIPv6 (5 + n) ap (Net.IPv4 10 0 0 0)
    (Net.mkIPNet [10; 0; 0; 0] [255; 255; 255; 252])
  = Some (ap_set_Addresses (overlay_records (ap_epoch ap)) ap, None).
Proof.
  intros Hs Ha. destruct ap as [i f s g A B v p r e]; simpl in *; subst.
  unfold populateIPAddresses.
  change (5 + n)%nat with (S (S (S (S (S n))))).
  vm_compute. reflexivity.
Qed.

Lemma first_free_Some order ap k :
  first_free order ap = Some k ->
  exists ar, Addresses ap !! k = Some ar /\ InUse ar = false.
Proof.
  unfold first_free. intros H. apply find_some in H as [_ H].
  destruct (Addresses ap !! k) as [ar|]; [|done].
  exists ar. split; [done|]. by destruct (InUse ar).
Qed.

Lemma requestAddress_unnamed order ap options :
  opt options OptAddressType <> OptAddressTypeGateway ->
  requestAddress order ap "" options = (ap, Err errNoAvailableAddresses)
  \/ exists k ar,
       Addresses ap !! k = Some ar
       /\ (InUse ar = false
           \/ (opt options OptAddressID <> ""
               /\ addrsByID ap !! opt options OptAddressID = Some k))
       /\ requestAddress order ap "" options
          = take_record ap (opt options OptAddressID) k ar.
Proof.
  intros Hg. unfold requestAddress.
  rewrite bool_decide_eq_false_2 by auto.
  rewrite bool_decide_eq_false_2 by done.
  assert (Hany :
    match first_free order ap with
    | None => (ap, Err errNoAvailableAddresses)
    | Some k =>
        match Addresses ap !! k with
        | Some ar => take_record ap (opt options OptAddressID) k ar
        | None => (ap, Err errNoAvailableAddresses)
        end
    end = (ap, Err errNoAvailableAddresses)
    \/ exists k ar,
         Addresses ap !! k = Some ar
         /\ (InUse ar = false
             \/ (opt options OptAddressID <> ""
                 /\ addrsByID ap !! opt options OptAddressID = Some k))
         /\ match first_free order ap with
            | None => (ap, Err errNoAvailableAddresses)
            | Some k =>
                match Addresses ap !! k with
                | Some ar => take_record ap (opt options OptAddressID) k ar
                | None => (ap, Err errNoAvailableAddresses)
                end
            end = take_record ap (opt options OptAddressID) k ar).
  { destruct (first_free order ap) as [k|] eqn:E; [|by left].
    apply first_free_Some in E as (ar & Hk & Hu). rewrite Hk.
    right. exists k, ar. auto. }
  case_bool_decide as Hid; [|exact Hany].
  destruct (addrsByID ap !! opt options OptAddressID) as [k|] eqn:E; [|exact Hany].
  destruct (Addresses ap !! k) as [ar|] eqn:E2; [|exact Hany].
  right. exists k, ar. auto.
Qed.

(** C7: a request for the pool 10.0.0.0/30 with the options overlay-network and network-name, in a space that has no pool of that id, makes (given fuel for five rounds of the enumeration or more) a pool whose records are exactly those of 10.0.0.0, 10.0.0.1, 10.0.0.2 and 10.0.0.3, the first, the second and the last of them in use; a request for any address of that pool then returns 10.0.0.2/30 or finds no address available. *)
Theorem overlay_pool_records (parseIPv6 : string -> option Net.IP) (n : nat)
    (order : list string) (as_ : addressSpace) (subPoolId nw : string)
    (m : gmap string string) (v6 : bool) :
  opt (Some m) OptNetworkName = nw ->
  nw <> "" ->
  opt (Some m) OptOverlayNetwork <> "" ->
  Pools as_ !! "10.0.0.0/30" = None ->
  Pools as_ !! ("10.0.0.0/30" +:+ nw) = None ->
  exists ap,
    requestPool parseIPv6 (5 + n) order as_ "10.0.0.0/30" subPoolId (Some m) v6
    = (as_set_Pools (<["10.0.0.0/30" +:+ nw := ap]> (Pools as_)) as_,
       Ok ("10.0.0.0/30" +:+ nw))
    /\ Addresses ap = overlay_records (as_epoch as_)
    /\ forall order' options',
         opt options' OptAddressType <> OptAddressTypeGateway ->
         (requestAddress order' ap "" options').2 = Err errNoAvailableAddresses
         \/ (requestAddress order' ap "" options').2 = Ok "10.0.0.2/30".
Proof.
  intros Hnw Hne Hov Hl Hlk.
  set (ipnet := Net.mkIPNet [10; 0; 0; 0] [255; 255; 255; 252]).
  set (pool0 := mkPool ("10.0.0.0/30" +:+ nw) "" ipnet
                  (GenerateAddress ipnet defaultGatewayHostId) ∅ ∅ false 0 0
                  (as_epoch as_)).
  exists (ap_set_RefCount (GoInt.add 0 1)
            (ap_set_Addresses (overlay_records (as_epoch as_)) pool0)).
  split; [|split; [done|]].
  - unfold requestPool, getPool.
    rewrite bool_decide_eq_true_2 by done. rewrite Hl, Hnw.
    rewrite bool_decide_eq_false_2 by done. rewrite Hlk.
    rewrite bool_decide_eq_false_2 by done.
    replace (Net.ParseCIDR parseIPv6 "10.0.0.0/30")
      with (Some (Net.IPv4 10 0 0 0, ipnet)) by (vm_compute; reflexivity).
    unfold newAddressPool.
    replace (Net.IPNet_String ipnet) with "10.0.0.0/30" by (vm_compute; reflexivity).
    rewrite Hlk.
    replace (bool_decide (Net.To4 (Net.IPNet_IP ipnet) = None)) with false
      by (vm_compute; reflexivity).
    fold pool0. cbn [Pools as_set_Pools]. rewrite lookup_insert_eq.
    pose proof (overlay_populate parseIPv6 n pool0 eq_refl eq_refl) as Hp.
    fold ipnet in Hp. rewrite Hp.
    cbn [Pools as_set_Pools]. rewrite lookup_insert_eq.
    rewrite !insert_insert_eq. done.
  - intros order' options' Hg.
    match goal with
    | |- (requestAddress _ ?p _ _).2 = _ \/ _ =>
        destruct (requestAddress_unnamed order' p options' Hg)
          as [->|(k & ar & Hk & Hu & ->)]; [by left|right]
    end.
    cbn [Addresses addrsByID ap_set_RefCount ap_set_Addresses pool0] in Hk, Hu.
    rewrite lookup_empty in Hu.
    destruct Hu as [Hu|[_ ?]]; [|done].
    unfold overlay_records in Hk. cbn [list_to_map foldr uncurry fst snd] in Hk.
    rewrite !lookup_insert_Some, lookup_empty in Hk.
    destruct Hk as [[<- <-]|[_ [[<- <-]|[_ [[<- <-]|[_ [[<- <-]|[_ ?]]]]]]]];
      done.
Qed.

(** ** The text of an address is never empty *)

Lemma app_nonempty_r (a b : string) : b <> "" -> a +:+ b <> "".
Proof. destruct a; [done|]. intros _. discriminate. Qed.

Lemma printGroups_nonempty fuel g e0 e1 :
  (2 <= length g)%nat -> Net.printGroups (S (S fuel)) 0 g e0 e1 <> "".
Proof.
  intros Hg. cbn [Net.printGroups].
  destruct (length g <=? 0)%nat eqn:E0; [apply Nat.leb_le in E0; lia|].
  destruct (length g <=? 1)%nat eqn:E1; [apply Nat.leb_le in E1; lia|].
  case_bool_decide; [discriminate|].
  apply app_nonempty_r, app_nonempty_r.
  case_bool_decide; discriminate.
Qed.

Lemma groups_length_16 (p : list Z) :
  length p = 16%nat -> length (Net.groups p) = 8%nat.
Proof.
  intros H.
  do 16 (destruct p as [|? p]; [discriminate|]).
  destruct p; [reflexivity|discriminate].
Qed.

Lemma stringV6_nonempty (p : Net.IP) : length p = 16%nat -> Net.stringV6 p <> "".
Proof.
  intros H. unfold Net.stringV6.
  pose proof (groups_length_16 p H) as Hg.
  destruct (Net.longestRun 8 0 (Net.groups p) (0%nat, 0%nat)) as [s n].
  destruct (n <=? 1)%nat; apply printGroups_nonempty; lia.
Qed.

Lemma IP_String_nonempty (ip : Net.IP) : Net.IP_String ip <> "".
Proof.
  unfold Net.IP_String.
  destruct (length ip =? 0)%nat; [discriminate|].
  assert (Hrest : (if (length ip =? Net.IPv6len)%nat then Net.stringV6 ip
                   else "?" +:+ Net.hexString ip) <> "").
  { destruct (length ip =? Net.IPv6len)%nat eqn:E; [|discriminate].
    apply stringV6_nonempty. by apply Nat.eqb_eq in E. }
  destruct (Net.To4 ip) as [[|a [|b [|c [|d [|]]]]]|]; try exact Hrest.
  apply app_nonempty_r. discriminate.
Qed.

(** ** requestAddress and releaseAddress *)

Lemma in_use_insert ap k ar :
  InUse ar = true ->
  in_use (ap_set_Addresses (<[k := ar]> (Addresses ap)) ap) = {[k]} ∪ in_use ap.
Proof.
  intros H. unfold in_use. cbn [Addresses ap_set_Addresses].
  rewrite map_filter_insert_True by done. apply dom_insert_L.
Qed.

(** C5 (amended): for a registered address [a] that is free and a non-empty id [x], requesting [a] with the id [x] twice succeeds both times with the same CIDR text, the text of the record's address with the pool's mask; the second request changes nothing; afterwards the record of [a] is in use under the id [x], [addrsByID] maps [x] to it, and the records in use are the record of [a] and those that were in use before. *)
Theorem requestAddress_twice (order : list string) (ap : addressPool)
    (a x : string) (ar : addressRecord) (options : options_t) :
  a <> "" ->
  x <> "" ->
  opt options OptAddressID = x ->
  Addresses ap !! a = Some ar ->
  InUse ar = false ->
  exists ap1,
    requestAddress order ap a options = (ap1, Ok (cidr ap (Addr ar)))
    /\ requestAddress order ap1 a options = (ap1, Ok (cidr ap (Addr ar)))
    /\ Addresses ap1 !! a = Some (ar_set_InUse true (ar_set_ID x ar))
    /\ addrsByID ap1 !! x = Some a
    /\ in_use ap1 = {[a]} ∪ in_use ap.
Proof.
  intros Ha Hx Hid Hl Hu.
  exists (take_record ap x a ar).1.
  assert (H1 : requestAddress order ap a options
               = ((take_record ap x a ar).1, Ok (cidr ap (Addr ar)))).
  { unfold requestAddress. rewrite bool_decide_eq_true_2 by done.
    rewrite Hl, Hu, Hid. done. }
  split; [exact H1|].
  unfold take_record. rewrite (bool_decide_eq_true_2 (x <> "")) by done.
  cbn [fst].
  split; [|split; [|split]].
  - unfold requestAddress. rewrite bool_decide_eq_true_2 by done.
    cbn [Addresses ap_set_addrsByID ap_set_Addresses]. rewrite lookup_insert_eq.
    rewrite Hid. cbn [InUse ID ar_set_InUse ar_set_ID].
    rewrite (bool_decide_eq_false_2 (x = "")) by done.
    rewrite (bool_decide_eq_false_2 (x <> x)) by auto.
    cbn [andb orb]. unfold take_record.
    rewrite (bool_decide_eq_true_2 (x <> "")) by done.
    cbn [Addresses addrsByID ap_set_addrsByID ap_set_Addresses].
    rewrite !insert_insert_eq. unfold cidr. done.
  - cbn [Addresses ap_set_addrsByID ap_set_Addresses]. apply lookup_insert_eq.
  - cbn [addrsByID ap_set_addrsByID ap_set_Addresses]. apply lookup_insert_eq.
  - rewrite <- (in_use_insert ap a (ar_set_InUse true (ar_set_ID x ar))) by done.
    done.
Qed.

(** C5, an instance: 192.168.0.3 requested twice by the client c2 from [ex_pool_shared]. *)
Lemma requestAddress_twice_witness :
  exists ap1,
    requestAddress [] ex_pool_shared "192.168.0.3" (ex_options "c2")
      = (ap1, Ok (cidr ex_pool_shared (Net.IPv4 192 168 0 3)))
    /\ requestAddress [] ap1 "192.168.0.3" (ex_options "c2")
      = (ap1, Ok (cidr ex_pool_shared (Net.IPv4 192 168 0 3)))
    /\ Addresses ap1 !! "192.168.0.3"
       = Some (ar_set_InUse true
                 (ar_set_ID "c2" (mkRecord "" (Net.IPv4 192 168 0 3) false false 0)))
    /\ addrsByID ap1 !! "c2" = Some "192.168.0.3"
    /\ in_use ap1 = {["192.168.0.3"]} ∪ in_use ex_pool_shared.
Proof.
  apply (requestAddress_twice [] ex_pool_shared "192.168.0.3" "c2"
           (mkRecord "" (Net.IPv4 192 168 0 3) false false 0) (ex_options "c2")).
  - discriminate.
  - discriminate.
  - vm_compute. reflexivity.
  - vm_compute. reflexivity.
  - reflexivity.
Defined.

(** C5, as stated, fails: in a pool where another address is in use already, two records are in use after the two requests, not exactly one. *)
Lemma requestAddress_twice_more_in_use :
  exists ar ap1 ap2,
    Addresses ex_pool_shared !! "192.168.0.3" = Some ar
    /\ InUse ar = false
    /\ requestAddress [] ex_pool_shared "192.168.0.3" (ex_options "c2")
       = (ap1, Ok "192.168.0.3/24")
    /\ requestAddress [] ap1 "192.168.0.3" (ex_options "c2")
       = (ap2, Ok "192.168.0.3/24")
    /\ InUse <$> Addresses ap2 !! "192.168.0.2" = Some true
    /\ InUse <$> Addresses ap2 !! "192.168.0.3" = Some true
    /\ size (in_use ap2) = 2%nat.
Proof.
  eexists _, _, _.
  split; [vm_compute; reflexivity|].
  split; [reflexivity|].
  split; [vm_compute; reflexivity|].
  split; [vm_compute; reflexivity|].
  split; [vm_compute; reflexivity|].
  split; vm_compute; reflexivity.
Qed.

(** C6 (amended): a request with the address type gateway and no address succeeds, returns the gateway of the pool with the mask of the pool in CIDR notation and leaves the pool as it was; a release of the gateway address succeeds and leaves the pool as it was when the pool holds no record for the gateway address. *)
Theorem gateway_request_release (order : list string) (epoch : Z)
    (ap : addressPool) (options options' : options_t) :
  opt options OptAddressType = OptAddressTypeGateway ->
  requestAddress order ap "" options = (ap, Ok (cidr ap (Gateway ap)))
  /\ (Addresses ap !! Net.IP_String (Gateway ap) = None ->
      releaseAddress epoch ap (Net.IP_String (Gateway ap)) options' = (ap, Ok tt)).
Proof.
  intros Hg. split.
  - unfold requestAddress. rewrite bool_decide_eq_false_2 by auto.
    rewrite bool_decide_eq_true_2 by done. done.
  - intros Hl. unfold releaseAddress.
    rewrite bool_decide_eq_true_2 by apply IP_String_nonempty.
    rewrite Hl. rewrite bool_decide_eq_true_2 by done. done.
Qed.

(** C6, an instance: the gateway 192.168.0.1 of [ex_pool_shared]. *)
Lemma gateway_request_release_witness :
  requestAddress [] ex_pool_shared "" (Some {[OptAddressType := OptAddressTypeGateway]})
    = (ex_pool_shared, Ok (cidr ex_pool_shared (Gateway ex_pool_shared)))
  /\ releaseAddress 0 ex_pool_shared (Net.IP_String (Gateway ex_pool_shared)) None
     = (ex_pool_shared, Ok tt).
Proof.
  pose proof (gateway_request_release [] 0 ex_pool_shared
                (Some {[OptAddressType := OptAddressTypeGateway]}) None) as H.
  destruct H as [H1 H2]; [vm_compute; reflexivity|].
  split; [exact H1|apply H2; vm_compute; reflexivity].
Defined.

(** C6, as stated, fails: the overlay pool of 10.0.0.0/30 holds a record for its gateway 10.0.0.1, marked in use when the pool was populated.  The release of the gateway address succeeds and is not a no-op: it marks that record free. *)
Lemma gateway_release_frees_registered_gateway :
  exists ap ap',
    Pools ex_overlay_space !! "10.0.0.0/30ov" = Some ap
    /\ requestAddress [] ap ""
         (Some {[OptAddressType := OptAddressTypeGateway]})
       = (ap, Ok "10.0.0.1/30")
    /\ Net.IP_String (Gateway ap) = "10.0.0.1"
    /\ releaseAddress (as_epoch ex_overlay_space) ap "10.0.0.1" None
       = (ap', Ok tt)
    /\ InUse <$> Addresses ap !! "10.0.0.1" = Some true
    /\ InUse <$> Addresses ap' !! "10.0.0.1" = Some false.
Proof.
  eexists _, _.
  split; [vm_compute; reflexivity|].
  split; [vm_compute; reflexivity|].
  split; [vm_compute; reflexivity|].
  split; [vm_compute; reflexivity|].
  split; vm_compute; reflexivity.
Qed.

(** ** Instances *)

(** C2, an instance: merges and a release on the space [ex_live]. *)
Lemma merge_epoch_monotone_witness :
  (as_epoch (merge ex_live ex_refresh_other) = as_epoch ex_live
   \/ as_epoch (merge ex_live ex_refresh_other) = as_epoch ex_live + 1)
  /\ (as_epoch ex_live < as_epoch (merge ex_live ex_refresh_other) <->
      pool_adopted ex_live ex_refresh_other
      \/ record_adopted ex_live ex_refresh_other
      \/ record_reconfirmed ex_live ex_refresh_other)
  /\ as_epoch ex_live
     <= as_epoch (run (fun _ => None) ex_live
                      [OpMerge ex_refresh_empty;
                       OpReleaseAddress ex_pool_id "192.168.0.2" None;
                       OpMerge ex_refresh_new]).
Proof.
  apply (merge_epoch_monotone (fun _ => None) ex_live ex_refresh_other
           [OpMerge ex_refresh_empty;
            OpReleaseAddress ex_pool_id "192.168.0.2" None;
            OpMerge ex_refresh_new]).
  - vm_compute. split; [discriminate|reflexivity].
  - vm_compute. discriminate.
Defined.

(** C7, an instance: the overlay network ov in an empty space. *)
Lemma overlay_pool_records_witness :
  exists ap,
    requestPool (fun _ => None) (5 + 0) []
      (mkSpace LocalDefaultAddressSpaceId LocalScope ∅ 0)
      "10.0.0.0/30" "" (Some ex_overlay_options) false
    = (as_set_Pools (<["10.0.0.0/30" +:+ "ov" := ap]> ∅)
         (mkSpace LocalDefaultAddressSpaceId LocalScope ∅ 0),
       Ok ("10.0.0.0/30" +:+ "ov"))
    /\ Addresses ap = overlay_records 0
    /\ forall order' options',
         opt options' OptAddressType <> OptAddressTypeGateway ->
         (requestAddress order' ap "" options').2 = Err errNoAvailableAddresses
         \/ (requestAddress order' ap "" options').2 = Ok "10.0.0.2/30".
Proof.
  apply (overlay_pool_records (fun _ => None) 0 []
           (mkSpace LocalDefaultAddressSpaceId LocalScope ∅ 0) "" "ov"
           ex_overlay_options false).
  - vm_compute. reflexivity.
  - discriminate.
  - vm_compute. discriminate.
  - reflexivity.
  - reflexivity.
Defined.

(** C10, an instance: [ex_live] adopts the pool 10.3.0.0/16. *)
Lemma merge_adopted_pool_release_witness :
  as_epoch (merge ex_live ex_refresh_new) = as_epoch ex_live + 1
  /\ Pools (merge ex_live ex_refresh_new) !! "10.3.0.0/16"
     = Some (ap_set_epoch (as_epoch (merge ex_live ex_refresh_new)) ex_new_pool)
  /\ forall ak ar order options,
       Addresses ex_new_pool !! ak = Some ar -> ak <> "" ->
       ar_epoch ar <= as_epoch ex_live ->
       ar_epoch ar < as_epoch (merge ex_live ex_refresh_new)
       /\ (InUse ar = true ->
           opt options OptAddressID = "" \/ opt options OptAddressID = ID ar ->
           exists ap'',
             releaseAddress (as_epoch (merge ex_live ex_refresh_new))
               (ap_set_epoch (as_epoch (merge ex_live ex_refresh_new)) ex_new_pool)
               ak options = (ap'', Ok tt)
             /\ Addresses ap'' !! ak = None)
       /\ (InUse ar = false ->
           exists ap1 ap2 c,
             requestAddress order
               (ap_set_epoch (as_epoch (merge ex_live ex_refresh_new)) ex_new_pool)
               ak options = (ap1, Ok c)
             /\ releaseAddress (as_epoch (merge ex_live ex_refresh_new)) ap1 ak options
                = (ap2, Ok tt)
             /\ Addresses ap2 !! ak = None).
Proof.
  apply (merge_adopted_pool_release ex_live ex_refresh_new "10.3.0.0/16" ex_new_pool).
  - vm_compute. split; [discriminate|reflexivity].
  - vm_compute. reflexivity.
  - vm_compute. reflexivity.
Defined.

(** ** More on requestPool and releasePool *)

Lemma as_set_Pools_id as_ : as_set_Pools (Pools as_) as_ = as_.
Proof. by destruct as_. Qed.

Lemma ap_set_RefCount_id ap : ap_set_RefCount (RefCount ap) ap = ap.
Proof. by destruct ap. Qed.

(** X1: A request for a pool by a non-empty id that the space does not hold, with a network name under which it holds no pool either and with no overlay-network option, fails with errAddressPoolNotFound and leaves the space as it was. *)
Theorem requestPool_network_pool_not_found
    (parseIPv6 : string -> option Net.IP) (fuel : nat) (order : list string)
    (as_ : addressSpace) (poolId subPoolId nw : string)
    (m : gmap string string) (v6 : bool) :
  poolId <> "" ->
  Pools as_ !! poolId = None ->
  opt (Some m) OptNetworkName = nw ->
  nw <> "" ->
  Pools as_ !! (poolId +:+ nw) = None ->
  opt (Some m) OptOverlayNetwork = "" ->
  requestPool parseIPv6 fuel order as_ poolId subPoolId (Some m) v6
  = (as_, Err errAddressPoolNotFound).
Proof.
  intros Hp Hl Hnw Hne Hlk Hov. unfold requestPool, getPool.
  rewrite bool_decide_eq_true_2 by done. rewrite Hl, Hnw.
  rewrite bool_decide_eq_false_2 by done. rewrite Hlk, Hov.
  rewrite bool_decide_eq_true_2 by done. done.
Qed.

(** X1, an instance. *)
Lemma requestPool_network_pool_not_found_witness :
  requestPool (fun _ => None) 0 [] ex_live "10.9.0.0/16" ""
    (Some {[OptNetworkName := "ov"]}) false
  = (ex_live, Err errAddressPoolNotFound).
Proof.
  apply (requestPool_network_pool_not_found _ _ _ _ _ _ "ov").
  - discriminate.
  - vm_compute. reflexivity.
  - vm_compute. reflexivity.
  - discriminate.
  - vm_compute. reflexivity.
  - vm_compute. reflexivity.
Defined.

(** X2: A request for an overlay pool (network-name and overlay-network set, no pool under the id or under id+network name) whose id net.ParseCIDR does not accept fails with errInvalidPoolId and leaves the space as it was. *)
Theorem requestPool_overlay_bad_cidr
    (parseIPv6 : string -> option Net.IP) (fuel : nat) (order : list string)
    (as_ : addressSpace) (poolId subPoolId nw : string)
    (m : gmap string string) (v6 : bool) :
  poolId <> "" ->
  Pools as_ !! poolId = None ->
  opt (Some m) OptNetworkName = nw ->
  nw <> "" ->
  Pools as_ !! (poolId +:+ nw) = None ->
  opt (Some m) OptOverlayNetwork <> "" ->
  Net.ParseCIDR parseIPv6 poolId = None ->
  requestPool parseIPv6 fuel order as_ poolId subPoolId (Some m) v6
  = (as_, Err errInvalidPoolId).
Proof.
  intros Hp Hl Hnw Hne Hlk Hov Hc. unfold requestPool, getPool.
  rewrite bool_decide_eq_true_2 by done. rewrite Hl, Hnw.
  rewrite bool_decide_eq_false_2 by done. rewrite Hlk.
  rewrite bool_decide_eq_false_2 by done. rewrite Hc. done.
Qed.

(** X2, an instance. *)
Lemma requestPool_overlay_bad_cidr_witness :
  requestPool (fun _ => None) 0 [] ex_live "10.9.0.0" ""
    (Some ex_overlay_options) false
  = (ex_live, Err errInvalidPoolId).
Proof.
  apply (requestPool_overlay_bad_cidr _ _ _ _ _ _ "ov").
  - discriminate.
  - vm_compute. reflexivity.
  - vm_compute. reflexivity.
  - discriminate.
  - vm_compute. reflexivity.
  - vm_compute. discriminate.
  - vm_compute. reflexivity.
Defined.

Lemma getPool_errors p6 fuel as_ poolId options as' k err :
  getPool p6 fuel as_ poolId options = Some (as', k, Some err) ->
  as' = as_ /\ (err = errAddressPoolNotFound \/ err = errInvalidPoolId).
Proof.
  unfold getPool.
  destruct (Pools as_ !! poolId); [intros [= <- <- ?]; done|].
  destruct options as [m|]; [|intros [= <- <- ?]; done].
  case_bool_decide; [intros [= <- <- ?]; done|].
  destruct (Pools as_ !! _); [intros [= <- <- ?]; done|].
  case_bool_decide; [intros [= <- <- <-]; auto|].
  destruct (Net.ParseCIDR p6 poolId) as [[ip ipnet]|]; [|intros [= <- <- <-]; auto].
  destruct (newAddressPool as_ "" _ 0 ipnet) as [[as1 k1] [e1|]];
    [intros [= <- <- ?]; done|].
  destruct (Pools as1 !! k1); [|intros [= <- <- ?]; done].
  destruct (populateIPAddresses p6 fuel _ ip ipnet) as [[ap' o]|];
    [intros [= <- <- ?]; done|done].
Qed.

(** X3: requestPool never returns errNoAvailableAddressPools, for any space and arguments: when no pool id is given and every pool is in use or of the other address family, the error is assigned but line 434 dereferences the nil pool first (outcome Panic, space unchanged). *)
Theorem requestPool_never_reports_no_pools
    (parseIPv6 : string -> option Net.IP) (fuel : nat) (order : list string)
    (as_ : addressSpace) (poolId subPoolId : string) (options : options_t)
    (v6 : bool) :
  (requestPool parseIPv6 fuel order as_ poolId subPoolId options v6).2
  <> Err errNoAvailableAddressPools
  /\ (poolId = "" ->
      (forall k pool, Pools as_ !! k = Some pool ->
                      isInUse pool = true \/ IsIPv6 pool <> v6) ->
      requestPool parseIPv6 fuel order as_ poolId subPoolId options v6
      = (as_, Panic)).
Proof.
  split.
  - unfold requestPool. case_bool_decide as Hp.
    + destruct (getPool parseIPv6 fuel as_ poolId options)
        as [[[as1 k] [e|]]|] eqn:E; [| |done].
      * apply getPool_errors in E as [_ [->| ->]]; destruct k; discriminate.
      * destruct k as [k|]; [|discriminate].
        destruct (Pools as1 !! k); discriminate.
    + destruct (foldl _ None order) as [k|]; [|discriminate].
      destruct (Pools as_ !! k); discriminate.
  - intros -> Hnone. unfold requestPool.
    rewrite bool_decide_eq_false_2 by auto.
    assert (Hf : foldl (requestPool_visit (Pools as_)
                          (opt options OptInterfaceName) v6) None order = None).
    { induction order as [|k order IH]; [done|]. simpl.
      replace (requestPool_visit (Pools as_) (opt options OptInterfaceName) v6
                 None k) with (@None string); [exact IH|].
      unfold requestPool_visit.
      destruct (Pools as_ !! k) as [pool|] eqn:E; [|done].
      destruct (Hnone k pool E) as [->|Hv]; [done|].
      destruct (isInUse pool); [done|].
      destruct (IsIPv6 pool), v6; done. }
    rewrite Hf. done.
Qed.

Lemma requestPool_by_id p6 fuel order as_ poolId subPoolId ap options v6 :
  poolId <> "" ->
  Pools as_ !! poolId = Some ap ->
  requestPool p6 fuel order as_ poolId subPoolId options v6
  = (as_set_Pools
       (<[poolId := ap_set_RefCount (GoInt.add (RefCount ap) 1) ap]> (Pools as_))
       as_,
     Ok poolId).
Proof.
  intros Hp Hl. unfold requestPool, getPool.
  rewrite bool_decide_eq_true_2 by done. rewrite Hl. cbn. rewrite Hl. done.
Qed.

(** X4: A request by the id of a pool the space holds succeeds whatever the pool's reference count, address family and the options: it returns that pool and adds one to its RefCount (with the wrap-around of int), changing nothing else. *)
Theorem requestPool_existing_pool_shared
    (parseIPv6 : string -> option Net.IP) (fuel : nat) (order : list string)
    (as_ : addressSpace) (poolId subPoolId : string) (ap : addressPool)
    (options : options_t) (v6 : bool) :
  poolId <> "" ->
  Pools as_ !! poolId = Some ap ->
  requestPool parseIPv6 fuel order as_ poolId subPoolId options v6
  = (as_set_Pools
       (<[poolId := ap_set_RefCount (GoInt.add (RefCount ap) 1) ap]> (Pools as_))
       as_,
     Ok poolId)
  /\ (forall k, k <> poolId ->
        Pools (requestPool parseIPv6 fuel order as_ poolId subPoolId options v6).1
          !! k = Pools as_ !! k)
  /\ as_epoch (requestPool parseIPv6 fuel order as_ poolId subPoolId options v6).1
     = as_epoch as_.
Proof.
  intros Hp Hl. rewrite (requestPool_by_id _ _ _ _ _ _ ap) by done.
  split; [done|]. split; [|done].
  intros k Hk. cbn. by rewrite lookup_insert_ne.
Qed.

(** X4, an instance. *)
Lemma requestPool_existing_pool_shared_witness :
  requestPool (fun _ => None) 0 [] ex_overlay_space "10.0.0.0/30ov" "" None true
  = (as_set_Pools
       (<["10.0.0.0/30ov" :=
            ap_set_RefCount (GoInt.add (RefCount ex_overlay_pool) 1)
                            ex_overlay_pool]>
          (Pools ex_overlay_space))
       ex_overlay_space,
     Ok "10.0.0.0/30ov")
  /\ (forall k, k <> "10.0.0.0/30ov" ->
        Pools (requestPool (fun _ => None) 0 [] ex_overlay_space
                 "10.0.0.0/30ov" "" None true).1 !! k
        = Pools ex_overlay_space !! k)
  /\ as_epoch (requestPool (fun _ => None) 0 [] ex_overlay_space
                 "10.0.0.0/30ov" "" None true).1
     = as_epoch ex_overlay_space.
Proof.
  apply requestPool_existing_pool_shared; [discriminate|].
  vm_compute. reflexivity.
Defined.

(** X5: When the space has no pool under the id requested and has one under id+network-name, the request returns that pool with its RefCount incremented, for every fuel and whether or not the id parses as a CIDR: a second request for an overlay pool populates nothing. *)
Theorem requestPool_network_pool_found
    (parseIPv6 : string -> option Net.IP) (fuel : nat) (order : list string)
    (as_ : addressSpace) (poolId subPoolId nw : string) (ap : addressPool)
    (m : gmap string string) (v6 : bool) :
  poolId <> "" ->
  Pools as_ !! poolId = None ->
  opt (Some m) OptNetworkName = nw ->
  nw <> "" ->
  Pools as_ !! (poolId +:+ nw) = Some ap ->
  requestPool parseIPv6 fuel order as_ poolId subPoolId (Some m) v6
  = (as_set_Pools
       (<[poolId +:+ nw := ap_set_RefCount (GoInt.add (RefCount ap) 1) ap]>
          (Pools as_))
       as_,
     Ok (poolId +:+ nw)).
Proof.
  intros Hp Hl Hnw Hne Hlk. unfold requestPool, getPool.
  rewrite bool_decide_eq_true_2 by done. rewrite Hl, Hnw.
  rewrite bool_decide_eq_false_2 by done. rewrite Hlk. cbn. rewrite Hlk. done.
Qed.

(** X5, an instance. *)
Lemma requestPool_network_pool_found_witness :
  exists ap,
    requestPool (fun _ => None) 0 [] ex_overlay_space "10.0.0.0/30" ""
      (Some ex_overlay_options) false
    = (as_set_Pools
         (<["10.0.0.0/30" +:+ "ov" :=
              ap_set_RefCount (GoInt.add (RefCount ap) 1) ap]>
            (Pools ex_overlay_space))
         ex_overlay_space,
       Ok ("10.0.0.0/30" +:+ "ov"))
    /\ Addresses ap = overlay_records 0.
Proof.
  eexists. split.
  - apply (requestPool_network_pool_found _ _ _ _ _ _ "ov").
    + discriminate.
    + vm_compute. reflexivity.
    + vm_compute. reflexivity.
    + discriminate.
    + vm_compute. reflexivity.
  - vm_compute. reflexivity.
Defined.

(** X6: A releasePool that returns an error leaves the space unchanged, and the error is errAddressPoolNotFound exactly when the space has no pool of that id, errAddressPoolNotInUse when the pool's RefCount is not positive. *)
Theorem releasePool_failure (as_ : addressSpace) (poolId : string) (e : error) :
  (releasePool as_ poolId).2 = Err e ->
  (releasePool as_ poolId).1 = as_
  /\ ((e = errAddressPoolNotFound /\ Pools as_ !! poolId = None)
      \/ (e = errAddressPoolNotInUse
          /\ exists ap, Pools as_ !! poolId = Some ap /\ RefCount ap <= 0)).
Proof.
  unfold releasePool.
  destruct (Pools as_ !! poolId) as [ap|] eqn:E.
  - unfold isInUse.
    destruct (0 <? RefCount ap) eqn:Er; cbn [negb].
    + destruct (_ && _); discriminate.
    + intros [= <-]. split; [done|right]. split; [done|].
      exists ap. split; [done|]. apply Z.ltb_ge in Er. lia.
  - intros [= <-]. auto.
Qed.

(** X6, an instance. *)
Lemma releasePool_failure_witness :
  (releasePool ex_live ex_pool_id).1 = ex_live
  /\ ((errAddressPoolNotInUse = errAddressPoolNotFound
       /\ Pools ex_live !! ex_pool_id = None)
      \/ (errAddressPoolNotInUse = errAddressPoolNotInUse
          /\ exists ap, Pools ex_live !! ex_pool_id = Some ap /\ RefCount ap <= 0)).
Proof.
  apply (releasePool_failure ex_live ex_pool_id errAddressPoolNotInUse).
  vm_compute. reflexivity.
Defined.

(** X7: Releasing a pool whose RefCount is positive succeeds, leaves the other pools and the epoch as they were, and either stores the pool with RefCount one less or, when the count reaches zero and the pool's epoch is older than the space's, deletes the pool. *)
Theorem releasePool_success (as_ : addressSpace) (poolId : string)
    (ap : addressPool) :
  Pools as_ !! poolId = Some ap ->
  0 < RefCount ap <= GoInt.max_int ->
  (releasePool as_ poolId).2 = Ok tt
  /\ Pools (releasePool as_ poolId).1 !! poolId
     = (if (ap_epoch ap <? as_epoch as_) && (RefCount ap =? 1) then None
        else Some (ap_set_RefCount (RefCount ap - 1) ap))
  /\ (forall k, k <> poolId ->
                Pools (releasePool as_ poolId).1 !! k = Pools as_ !! k)
  /\ as_epoch (releasePool as_ poolId).1 = as_epoch as_.
Proof.
  intros Hl Hr. unfold releasePool. rewrite Hl. unfold isInUse.
  destruct (0 <? RefCount ap) eqn:E; [|apply Z.ltb_ge in E; lia].
  cbn [negb]. unfold GoInt.sub.
  rewrite wrap_small by (unfold GoInt.min_int, GoInt.max_int in *; lia).
  cbn [ap_epoch RefCount ap_set_RefCount].
  destruct (ap_epoch ap <? as_epoch as_) eqn:Ee; cbn [andb].
  - destruct (RefCount ap =? 1) eqn:E1.
    + apply Z.eqb_eq in E1. rewrite E1. cbn.
      split; [done|]. split; [apply lookup_delete_eq|].
      split; [|done]. intros k Hk. by apply lookup_delete_ne.
    + apply Z.eqb_neq in E1.
      destruct (0 <? RefCount ap - 1) eqn:E2; [|apply Z.ltb_ge in E2; lia].
      cbn. split; [done|]. split; [apply lookup_insert_eq|].
      split; [|done]. intros k Hk. by apply lookup_insert_ne.
  - cbn. split; [done|]. split; [apply lookup_insert_eq|].
    split; [|done]. intros k Hk. by apply lookup_insert_ne.
Qed.

(** X7, an instance. *)
Lemma releasePool_success_witness :
  exists ap,
    Pools ex_overlay_space !! "10.0.0.0/30ov" = Some ap
    /\ (releasePool ex_overlay_space "10.0.0.0/30ov").2 = Ok tt
    /\ Pools (releasePool ex_overlay_space "10.0.0.0/30ov").1 !! "10.0.0.0/30ov"
       = (if (ap_epoch ap <? as_epoch ex_overlay_space) && (RefCount ap =? 1)
          then None else Some (ap_set_RefCount (RefCount ap - 1) ap))
    /\ (forall k, k <> "10.0.0.0/30ov" ->
                  Pools (releasePool ex_overlay_space "10.0.0.0/30ov").1 !! k
                  = Pools ex_overlay_space !! k)
    /\ as_epoch (releasePool ex_overlay_space "10.0.0.0/30ov").1
       = as_epoch ex_overlay_space.
Proof.
  eexists. split; [vm_compute; reflexivity|].
  apply releasePool_success; [vm_compute; reflexivity|].
  vm_compute. split; [reflexivity|discriminate].
Defined.

(** X8: Requesting a pool the space holds by its id and then releasing it gives back the space exactly as it was, provided the RefCount is in [0, maxint) and the pool is not a stale one with count zero (epoch not older than the space's, or count positive). *)
Theorem requestPool_releasePool_round_trip
    (parseIPv6 : string -> option Net.IP) (fuel : nat) (order : list string)
    (as_ : addressSpace) (poolId subPoolId : string) (ap : addressPool)
    (options : options_t) (v6 : bool) :
  poolId <> "" ->
  Pools as_ !! poolId = Some ap ->
  0 <= RefCount ap < GoInt.max_int ->
  as_epoch as_ <= ap_epoch ap \/ 0 < RefCount ap ->
  releasePool
    (requestPool parseIPv6 fuel order as_ poolId subPoolId options v6).1 poolId
  = (as_, Ok tt).
Proof.
  intros Hp Hl Hr Hk.
  rewrite (requestPool_by_id _ _ _ _ _ _ ap) by done.
  cbn [fst]. unfold releasePool. cbn [Pools as_set_Pools as_epoch].
  rewrite lookup_insert_eq. unfold isInUse, GoInt.add, GoInt.sub.
  cbn [RefCount ap_set_RefCount ap_epoch].
  rewrite (wrap_small (RefCount ap + 1))
    by (unfold GoInt.min_int, GoInt.max_int in *; lia).
  rewrite (wrap_small (RefCount ap + 1 - 1))
    by (unfold GoInt.min_int, GoInt.max_int in *; lia).
  destruct (0 <? RefCount ap + 1) eqn:E; [|apply Z.ltb_ge in E; lia].
  cbn [negb].
  replace (RefCount ap + 1 - 1) with (RefCount ap) by lia.
  assert (Hrestore :
    as_set_Pools
      (<[poolId := ap_set_RefCount (RefCount ap)
                     (ap_set_RefCount (RefCount ap + 1) ap)]>
         (Pools
            (as_set_Pools
               (<[poolId := ap_set_RefCount (RefCount ap + 1) ap]> (Pools as_))
               as_)))
      (as_set_Pools
         (<[poolId := ap_set_RefCount (RefCount ap + 1) ap]> (Pools as_)) as_)
    = as_).
  { cbn [Pools as_set_Pools]. rewrite insert_insert_eq.
    replace (ap_set_RefCount (RefCount ap) (ap_set_RefCount (RefCount ap + 1) ap))
      with ap by (by destruct ap).
    rewrite insert_id by done. by destruct as_. }
  destruct ((ap_epoch ap <? as_epoch as_) && negb (0 <? RefCount ap)) eqn:Ed.
  - apply andb_true_iff in Ed as [E1 E2]. apply Z.ltb_lt in E1.
    apply negb_true_iff, Z.ltb_ge in E2. lia.
  - cbn [as_set_Pools Pools as_Id Scope as_epoch] in *. by rewrite Hrestore.
Qed.

(** X8, an instance. *)
Lemma requestPool_releasePool_round_trip_witness :
  releasePool
    (requestPool (fun _ => None) 0 [] ex_live ex_pool_id "" None false).1
    ex_pool_id
  = (ex_live, Ok tt).
Proof.
  eapply requestPool_releasePool_round_trip.
  - discriminate.
  - vm_compute. reflexivity.
  - vm_compute. split; [discriminate|reflexivity].
  - left. vm_compute. discriminate.
Defined.

(** ** More on requestAddress and releaseAddress *)

Lemma ap_restore ap :
  ap_set_addrsByID (addrsByID ap) (ap_set_Addresses (Addresses ap) ap) = ap.
Proof. by destruct ap. Qed.

Lemma first_free_None order ap :
  first_free order ap = None ->
  forall k ar, k ∈ order -> Addresses ap !! k = Some ar -> InUse ar = true.
Proof.
  unfold first_free. intros H k ar Hk Hl.
  apply list_elem_of_In in Hk.
  pose proof (find_none _ _ H k Hk) as Hn. cbn in Hn. rewrite Hl in Hn.
  by destruct (InUse ar).
Qed.

(** X9: A requestAddress that returns an error leaves the pool unchanged, and the error tells the cause: errAddressNotFound for a named address with no record, errAddressInUse for a named address in use when the request has no id or another id, errNoAvailableAddresses when no address was named and every record visited is in use. *)
Theorem requestAddress_failure (order : list string) (ap : addressPool)
    (address : string) (options : options_t) (e : error) :
  (requestAddress order ap address options).2 = Err e ->
  (requestAddress order ap address options).1 = ap
  /\ ((e = errAddressNotFound /\ address <> "" /\ Addresses ap !! address = None)
      \/ (e = errAddressInUse /\ address <> ""
          /\ exists ar, Addresses ap !! address = Some ar /\ InUse ar = true
                        /\ (opt options OptAddressID = ""
                            \/ opt options OptAddressID <> ID ar))
      \/ (e = errNoAvailableAddresses /\ address = ""
          /\ forall k ar, k ∈ order -> Addresses ap !! k = Some ar ->
                          InUse ar = true)).
Proof.
  unfold requestAddress.
  assert (Hany :
    forall id,
      (match first_free order ap with
       | None => (ap, Err errNoAvailableAddresses)
       | Some k =>
           match Addresses ap !! k with
           | Some ar => take_record ap id k ar
           | None => (ap, Err errNoAvailableAddresses)
           end
       end).2 = Err e ->
      (match first_free order ap with
       | None => (ap, Err errNoAvailableAddresses)
       | Some k =>
           match Addresses ap !! k with
           | Some ar => take_record ap id k ar
           | None => (ap, Err errNoAvailableAddresses)
           end
       end).1 = ap
      /\ e = errNoAvailableAddresses
      /\ forall k ar, k ∈ order -> Addresses ap !! k = Some ar -> InUse ar = true).
  { intros id. destruct (first_free order ap) as [k|] eqn:E.
    - apply first_free_Some in E as (ar & -> & _). discriminate.
    - intros [= <-]. split; [done|]. split; [done|]. by apply first_free_None. }
  case_bool_decide as Ha.
  - destruct (Addresses ap !! address) as [ar|] eqn:El.
    + destruct (InUse ar) eqn:Eu; [|discriminate]. cbn [andb].
      destruct (bool_decide (opt options OptAddressID = "")
                || bool_decide (opt options OptAddressID <> ID ar)) eqn:Ec;
        [|discriminate].
      intros [= <-]. split; [done|]. right; left. split; [done|]. split; [done|].
      exists ar. split; [done|]. split; [done|].
      apply orb_true_iff in Ec as [Ec|Ec]; apply bool_decide_eq_true in Ec; auto.
    + intros [= <-]. auto.
  - assert (address = "") as -> by (by destruct (decide (address = ""))).
    case_bool_decide; [discriminate|].
    assert (Hfin :
      forall r : addressPool * outcome string,
        (r.2 = Err e ->
         r.1 = ap /\ e = errNoAvailableAddresses
         /\ forall k ar, k ∈ order -> Addresses ap !! k = Some ar ->
                         InUse ar = true) ->
        r.2 = Err e ->
        r.1 = ap
        /\ ((e = errAddressNotFound /\ "" <> "" /\ Addresses ap !! "" = None)
            \/ (e = errAddressInUse /\ "" <> ""
                /\ exists ar, Addresses ap !! "" = Some ar /\ InUse ar = true
                              /\ (opt options OptAddressID = ""
                                  \/ opt options OptAddressID <> ID ar))
            \/ (e = errNoAvailableAddresses /\ "" = ""
                /\ forall k ar, k ∈ order -> Addresses ap !! k = Some ar ->
                                InUse ar = true))).
    { intros r Hr Hre. destruct (Hr Hre) as (? & ? & ?). auto 10. }
    case_bool_decide.
    + destruct (addrsByID ap !! opt options OptAddressID) as [k|];
        [|apply Hfin, Hany].
      destruct (Addresses ap !! k); [discriminate|apply Hfin, Hany].
    + apply Hfin, Hany.
Qed.

(** X9, an instance. *)
Lemma requestAddress_failure_witness :
  (requestAddress [] ex_pool_shared "192.168.0.2" (ex_options "c2")).1
  = ex_pool_shared
  /\ ((errAddressInUse = errAddressNotFound /\ "192.168.0.2" <> ""
       /\ Addresses ex_pool_shared !! "192.168.0.2" = None)
      \/ (errAddressInUse = errAddressInUse /\ "192.168.0.2" <> ""
          /\ exists ar, Addresses ex_pool_shared !! "192.168.0.2" = Some ar
                        /\ InUse ar = true
                        /\ (opt (ex_options "c2") OptAddressID = ""
                            \/ opt (ex_options "c2") OptAddressID <> ID ar))
      \/ (errAddressInUse = errNoAvailableAddresses /\ "192.168.0.2" = ""
          /\ forall k ar, k ∈ ([] : list string) ->
                          Addresses ex_pool_shared !! k = Some ar ->
                          InUse ar = true)).
Proof.
  apply (requestAddress_failure [] ex_pool_shared "192.168.0.2"
           (ex_options "c2") errAddressInUse).
  vm_compute. reflexivity.
Defined.

(** X10: A releaseAddress that returns an error leaves the pool unchanged, and the error is errAddressNotFound or errAddressNotInUse. *)
Theorem releaseAddress_failure (epoch : Z) (ap : addressPool)
    (address : string) (options : options_t) (e : error) :
  (releaseAddress epoch ap address options).2 = Err e ->
  (releaseAddress epoch ap address options).1 = ap
  /\ (e = errAddressNotFound \/ e = errAddressNotInUse).
Proof.
  unfold releaseAddress.
  repeat case_match; cbn; intros; simplify_eq; auto.
Qed.

(** X10, an instance. *)
Lemma releaseAddress_failure_witness :
  (releaseAddress 0 ex_pool_shared "192.168.0.3" None).1 = ex_pool_shared
  /\ (errAddressNotInUse = errAddressNotFound
      \/ errAddressNotInUse = errAddressNotInUse).
Proof.
  apply (releaseAddress_failure 0 ex_pool_shared "192.168.0.3" None).
  vm_compute. reflexivity.
Defined.

(** X11: Requesting a free registered address (record with no id, epoch not older than the space's, request id empty or not yet in addrsByID) and releasing it with the same options gives back the pool exactly as it was. *)
Theorem requestAddress_releaseAddress_round_trip (order : list string)
    (epoch : Z) (ap : addressPool) (a : string) (ar : addressRecord)
    (options : options_t) :
  a <> "" ->
  Addresses ap !! a = Some ar ->
  InUse ar = false ->
  ID ar = "" ->
  opt options OptAddressID = ""
  \/ addrsByID ap !! opt options OptAddressID = None ->
  epoch <= ar_epoch ar ->
  releaseAddress epoch (requestAddress order ap a options).1 a options
  = (ap, Ok tt).
Proof.
  intros Ha Hl Hu Hi Hid He.
  rewrite (requestAddress_registered order ap a ar) by done.
  set (x := opt options OptAddressID) in *.
  rewrite (releaseAddress_registered epoch _ a (ar_set_InUse true (ar_set_ID x ar)));
    [|exact Ha| |reflexivity|right; reflexivity].
  2: { unfold take_record. cbn [fst Addresses ap_set_addrsByID ap_set_Addresses].
       apply lookup_insert_eq. }
  f_equal. unfold take_record. cbn [fst].
  unfold ap_set_addrsByID, ap_set_Addresses, ar_set_InUse, ar_set_ID; cbn.
  destruct (ar_epoch ar <? epoch) eqn:E; [apply Z.ltb_lt in E; lia|].
  rewrite insert_insert_eq.
  replace (mkRecord "" (Addr ar) false (unhealthy ar) (ar_epoch ar)) with ar
    by (destruct ar; cbn in *; congruence).
  rewrite insert_id by done.
  assert (Hby :
    (if bool_decide (x <> "")
     then delete x (if bool_decide (x <> "") then <[x := a]> (addrsByID ap)
                    else addrsByID ap)
     else if bool_decide (x <> "") then <[x := a]> (addrsByID ap)
          else addrsByID ap) = addrsByID ap).
  { case_bool_decide as Hx; [|done].
    rewrite delete_insert_eq. apply delete_id.
    destruct Hid as [?|?]; [done|done]. }
  rewrite Hby. by destruct ap.
Qed.

(** X11, an instance. *)
Lemma requestAddress_releaseAddress_round_trip_witness :
  releaseAddress 0
    (requestAddress [] ex_pool_shared "192.168.0.3" (ex_options "c2")).1
    "192.168.0.3" (ex_options "c2")
  = (ex_pool_shared, Ok tt).
Proof.
  apply (requestAddress_releaseAddress_round_trip [] 0 ex_pool_shared
           "192.168.0.3" (mkRecord "" (Net.IPv4 192 168 0 3) false false 0)).
  - discriminate.
  - vm_compute. reflexivity.
  - reflexivity.
  - reflexivity.
  - right. vm_compute. reflexivity.
  - reflexivity.
Defined.

(** ** The pointers of addrsByID *)

Lemma requestAddress_cases order ap address options :
  (requestAddress order ap address options).1 = ap
  \/ exists k ar,
       Addresses ap !! k = Some ar
       /\ requestAddress order ap address options
          = take_record ap (opt options OptAddressID) k ar
       /\ (InUse ar = false
           \/ (opt options OptAddressID <> "" /\ ID ar = opt options OptAddressID)
           \/ (opt options OptAddressID <> ""
               /\ addrsByID ap !! opt options OptAddressID = Some k)).
Proof.
  unfold requestAddress.
  set (id := opt options OptAddressID).
  assert (Hany :
    (match first_free order ap with
     | None => (ap, Err errNoAvailableAddresses)
     | Some k =>
         match Addresses ap !! k with
         | Some ar => take_record ap id k ar
         | None => (ap, Err errNoAvailableAddresses)
         end
     end).1 = ap
    \/ exists k ar,
         Addresses ap !! k = Some ar
         /\ match first_free order ap with
            | None => (ap, Err errNoAvailableAddresses)
            | Some k =>
                match Addresses ap !! k with
                | Some ar => take_record ap id k ar
                | None => (ap, Err errNoAvailableAddresses)
                end
            end = take_record ap id k ar
         /\ (InUse ar = false
             \/ (id <> "" /\ ID ar = id)
             \/ (id <> "" /\ addrsByID ap !! id = Some k))).
  { destruct (first_free order ap) as [k|] eqn:E; [|by left].
    apply first_free_Some in E as (ar & Hk & Hu). rewrite Hk.
    right. exists k, ar. split; [done|]. split; [done|]. by left. }
  case_bool_decide as Ha.
  - destruct (Addresses ap !! address) as [ar|] eqn:El; [|by left].
    destruct (InUse ar) eqn:Eu; cbn [andb].
    + destruct (bool_decide (id = "") || bool_decide (id <> ID ar)) eqn:Ec;
        [by left|].
      apply orb_false_iff in Ec as [E1 E2].
      apply bool_decide_eq_false in E1, E2.
      right. exists address, ar. split; [done|]. split; [done|].
      right; left. split; [done|].
      destruct (decide (ID ar = id)) as [?|Hn]; [done|].
      exfalso. apply E2. congruence.
    + right. exists address, ar. split; [done|]. split; [done|]. by left.
  - case_bool_decide; [by left|].
    case_bool_decide as Hid; [|exact Hany].
    destruct (addrsByID ap !! id) as [k|] eqn:E; [|exact Hany].
    destruct (Addresses ap !! k) as [ar|] eqn:E2; [|exact Hany].
    right. exists k, ar. split; [done|]. split; [done|]. right; right. done.
Qed.

Lemma releaseAddress_cases epoch ap address options :
  keys_ok ap ->
  (releaseAddress epoch ap address options).1 = ap
  \/ exists k ar,
       Addresses ap !! k = Some ar /\ InUse ar = true
       /\ (releaseAddress epoch ap address options).2 = Ok tt
       /\ (address = k \/ (address = "" /\ opt options OptAddressID <> ""
                           /\ addrsByID ap !! opt options OptAddressID = Some k))
       /\ (releaseAddress epoch ap address options).1
          = ap_set_addrsByID
              (if bool_decide (ID ar <> "") then delete (ID ar) (addrsByID ap)
               else addrsByID ap)
              (ap_set_Addresses
                 (if ar_epoch ar <? epoch then delete k (Addresses ap)
                  else <[k := ar_set_InUse false (ar_set_ID "" ar)]> (Addresses ap))
                 ap).
Proof.
  intros Hkeys. unfold releaseAddress.
  set (id := opt options OptAddressID).
  case_bool_decide as Ha.
  - destruct (Addresses ap !! address) as [ar|] eqn:El.
    + destruct (bool_decide (id <> "") && bool_decide (id <> ID ar)); [by left|].
      destruct (InUse ar) eqn:Eu; [|by left]. cbn [negb].
      right. exists address, ar. split; [done|]. split; [done|]. split; [done|].
      split; [by left|]. cbn [fst].
      destruct (ar_epoch ar <? epoch); [|done]. by rewrite delete_insert_eq.
    + case_bool_decide; by left.
  - case_bool_decide as Hid; [|by left].
    destruct (addrsByID ap !! id) as [k|] eqn:E; [|by left].
    destruct (Addresses ap !! k) as [ar|] eqn:E2; [|by left].
    cbn [andb].
    destruct (bool_decide (id <> ID ar)); [by left|].
    destruct (InUse ar) eqn:Eu; [|by left]. cbn [negb].
    right. exists k, ar. split; [done|]. split; [done|]. split; [done|].
    split.
    { right. split; [|done]. by destruct (decide (address = "")). }
    cbn [fst]. rewrite <- (Hkeys k ar E2).
    destruct (ar_epoch ar <? epoch); [|done]. by rewrite delete_insert_eq.
Qed.

(** X12: requestAddress keeps addrsByID sound: if every id in addrsByID is non-empty and points to a record of Addresses that is in use under that id, and every record is stored under the text of its address, the same holds after the request, whatever its arguments and result. *)
Theorem requestAddress_keeps_pointers (order : list string) (ap : addressPool)
    (address : string) (options : options_t) :
  by_id_ok ap -> keys_ok ap ->
  by_id_ok (requestAddress order ap address options).1
  /\ keys_ok (requestAddress order ap address options).1.
Proof.
  intros Hby Hkeys.
  destruct (requestAddress_cases order ap address options)
    as [->|(k & ar & Hk & -> & Hsel)]; [done|].
  set (id := opt options OptAddressID) in *.
  unfold take_record. cbn [fst]. split.
  - intros id' k'. cbn [addrsByID Addresses ap_set_addrsByID ap_set_Addresses].
    intros Hl.
    assert (Hcase : (id <> "" /\ id' = id /\ k' = k)
                    \/ (addrsByID ap !! id' = Some k' /\ (id = "" \/ id' <> id))).
    { case_bool_decide as Hid.
      - destruct (decide (id' = id)) as [->|Hne].
        + rewrite lookup_insert_eq in Hl. left. by simplify_eq.
        + rewrite lookup_insert_ne in Hl by done. right. auto.
      - right. split; [done|left]. by destruct (decide (id = "")). }
    destruct Hcase as [(Hid & -> & ->)|[Hold Hne]].
    + split; [done|]. eexists. rewrite lookup_insert_eq. done.
    + destruct (Hby id' k' Hold) as (Hid' & ar' & Hk' & Hi' & Hu').
      split; [done|].
      destruct (decide (k' = k)) as [->|Hkk].
      * exfalso. simplify_eq.
        destruct Hsel as [Hu|[[Hid Hi]|[Hid Hp]]].
        -- congruence.
        -- destruct Hne as [?|?]; congruence.
        -- destruct (Hby id k Hp) as (_ & ar2 & Hk2 & Hi2 & _).
           destruct Hne as [?|?]; [done|]. congruence.
      * exists ar'. by rewrite lookup_insert_ne.
  - intros k' ar'. cbn [Addresses ap_set_addrsByID ap_set_Addresses].
    destruct (decide (k' = k)) as [->|Hkk].
    + rewrite lookup_insert_eq. intros [= <-]. cbn. by apply Hkeys.
    + rewrite lookup_insert_ne by done. apply Hkeys.
Qed.

Lemma ex_pool_shared_pointers : by_id_ok ex_pool_shared /\ keys_ok ex_pool_shared.
Proof.
  split.
  - intros id k H.
    assert (Hm : addrsByID ex_pool_shared = {["c1" := "192.168.0.2"]})
      by (vm_compute; reflexivity).
    rewrite Hm in H. apply lookup_singleton_Some in H as [<- <-].
    split; [discriminate|]. eexists. split; [vm_compute; reflexivity|done].
  - intros k ar H.
    assert (Hm : Addresses ex_pool_shared
                 = <["192.168.0.2" := mkRecord "c1" (Net.IPv4 192 168 0 2) true false 0]>
                     (<["192.168.0.3" := mkRecord "" (Net.IPv4 192 168 0 3) false false 0]> ∅))
      by (vm_compute; reflexivity).
    rewrite Hm in H. rewrite !lookup_insert_Some, lookup_empty in H.
    destruct H as [[<- <-]|[_ [[<- <-]|[_ ?]]]]; [vm_compute; reflexivity..|done].
Qed.

(** X12, an instance. *)
Lemma requestAddress_keeps_pointers_witness :
  by_id_ok (requestAddress [] ex_pool_shared "192.168.0.3" (ex_options "c2")).1
  /\ keys_ok (requestAddress [] ex_pool_shared "192.168.0.3" (ex_options "c2")).1.
Proof.
  apply requestAddress_keeps_pointers; apply ex_pool_shared_pointers.
Defined.

(** X13: releaseAddress keeps addrsByID sound (ids non-empty, pointing to records of Addresses in use under that id) and keeps every record stored under the text of its address, whatever its arguments and result. *)
Theorem releaseAddress_keeps_pointers (epoch : Z) (ap : addressPool)
    (address : string) (options : options_t) :
  by_id_ok ap -> keys_ok ap ->
  by_id_ok (releaseAddress epoch ap address options).1
  /\ keys_ok (releaseAddress epoch ap address options).1.
Proof.
  intros Hby Hkeys.
  destruct (releaseAddress_cases epoch ap address options Hkeys)
    as [->|(k & ar & Hk & Hu & _ & _ & ->)]; [done|].
  split.
  - intros id' k'. cbn [addrsByID Addresses ap_set_addrsByID ap_set_Addresses].
    intros Hl.
    assert (Hold : addrsByID ap !! id' = Some k' /\ id' <> ID ar).
    { case_bool_decide as Hid.
      - destruct (decide (id' = ID ar)) as [->|Hne].
        + by rewrite lookup_delete_eq in Hl.
        + by rewrite lookup_delete_ne in Hl.
      - split; [done|].
        assert (ID ar = "") as -> by (by destruct (decide (ID ar = ""))).
        by destruct (Hby id' k' Hl). }
    destruct Hold as [Hold Hne].
    destruct (Hby id' k' Hold) as (Hid' & ar' & Hk' & Hi' & Hu').
    split; [done|]. exists ar'. split; [|done].
    assert (k' <> k) by (intros ->; simplify_eq; done).
    destruct (ar_epoch ar <? epoch).
    + by rewrite lookup_delete_ne.
    + by rewrite lookup_insert_ne.
  - intros k' ar'. cbn [Addresses ap_set_addrsByID ap_set_Addresses].
    destruct (ar_epoch ar <? epoch).
    + intros H. apply lookup_delete_Some in H as [_ H]. by apply Hkeys.
    + destruct (decide (k' = k)) as [->|Hkk].
      * rewrite lookup_insert_eq. intros [= <-]. cbn. by apply Hkeys.
      * rewrite lookup_insert_ne by done. apply Hkeys.
Qed.

(** X13, an instance. *)
Lemma releaseAddress_keeps_pointers_witness :
  by_id_ok (releaseAddress 1 ex_pool_shared "" (ex_options "c1")).1
  /\ keys_ok (releaseAddress 1 ex_pool_shared "" (ex_options "c1")).1.
Proof.
  apply releaseAddress_keeps_pointers; apply ex_pool_shared_pointers.
Defined.

(** X14: In a pool with sound addrsByID, releasing by id alone (empty address) does the same as releasing the address the id points to: both succeed with the same pool, the id is removed from addrsByID, the record is deleted if its epoch is older than the space's and otherwise marked free with no id, and no other record changes. *)
Theorem releaseAddress_by_id (epoch : Z) (ap : addressPool) (x k : string)
    (ar : addressRecord) (options : options_t) :
  by_id_ok ap -> keys_ok ap ->
  opt options OptAddressID = x ->
  addrsByID ap !! x = Some k ->
  Addresses ap !! k = Some ar ->
  exists ap',
    releaseAddress epoch ap "" options = (ap', Ok tt)
    /\ releaseAddress epoch ap k options = (ap', Ok tt)
    /\ addrsByID ap' !! x = None
    /\ Addresses ap' !! k
       = (if ar_epoch ar <? epoch then None
          else Some (ar_set_InUse false (ar_set_ID "" ar)))
    /\ forall k', k' <> k -> Addresses ap' !! k' = Addresses ap !! k'.
Proof.
  intros Hby Hkeys Hx Hp Hk.
  destruct (Hby x k Hp) as (Hne & ar' & Hk' & Hi & Hu). simplify_eq.
  assert (Hkne : k <> "").
  { rewrite (Hkeys k ar Hk). apply IP_String_nonempty. }
  eexists. split; [|split; [|split; [|split]]].
  - unfold releaseAddress. rewrite bool_decide_eq_false_2 by auto.
    rewrite bool_decide_eq_true_2 by done. rewrite Hp, Hk.
    rewrite (bool_decide_eq_false_2 (_ <> ID ar)) by auto.
    rewrite andb_false_r, Hu. cbn [negb].
    rewrite <- (Hkeys k ar Hk). reflexivity.
  - unfold releaseAddress. rewrite bool_decide_eq_true_2 by done. rewrite Hk.
    rewrite (bool_decide_eq_false_2 (_ <> ID ar)) by auto.
    rewrite andb_false_r, Hu. cbn [negb]. reflexivity.
  - cbn [addrsByID ap_set_addrsByID ap_set_Addresses].
    rewrite Hi. rewrite bool_decide_eq_true_2 by done. apply lookup_delete_eq.
  - cbn [Addresses ap_set_addrsByID ap_set_Addresses].
    destruct (ar_epoch ar <? epoch).
    + apply lookup_delete_eq.
    + apply lookup_insert_eq.
  - intros k'' Hkk. cbn [Addresses ap_set_addrsByID ap_set_Addresses].
    destruct (ar_epoch ar <? epoch).
    + rewrite lookup_delete_ne by done. by rewrite lookup_insert_ne.
    + by rewrite lookup_insert_ne.
Qed.

(** X14, an instance. *)
Lemma releaseAddress_by_id_witness :
  exists ap',
    releaseAddress 1 ex_pool_shared "" (ex_options "c1") = (ap', Ok tt)
    /\ releaseAddress 1 ex_pool_shared "192.168.0.2" (ex_options "c1") = (ap', Ok tt)
    /\ addrsByID ap' !! "c1" = None
    /\ Addresses ap' !! "192.168.0.2"
       = (if ar_epoch ex_record <? 1 then None
          else Some (ar_set_InUse false (ar_set_ID "" ex_record)))
    /\ forall k', k' <> "192.168.0.2" ->
                  Addresses ap' !! k' = Addresses ex_pool_shared !! k'.
Proof.
  apply (releaseAddress_by_id 1 ex_pool_shared "c1" "192.168.0.2" ex_record).
  - apply ex_pool_shared_pointers.
  - apply ex_pool_shared_pointers.
  - vm_compute. reflexivity.
  - vm_compute. reflexivity.
  - vm_compute. reflexivity.
Defined.

(** ** newAddressRecord and newAddressPool *)

Lemma in_use_insert_free ap k ar :
  InUse ar = false -> Addresses ap !! k = None ->
  in_use (ap_set_Addresses (<[k := ar]> (Addresses ap)) ap) = in_use ap.
Proof.
  intros H Hl. unfold in_use. cbn [Addresses ap_set_Addresses].
  rewrite map_filter_insert_False by (cbn; congruence).
  by rewrite delete_id.
Qed.

(** X15: A newAddressRecord that returns an error leaves the pool unchanged; the error is errInvalidAddress exactly when the subnet does not contain the address, errAddressExists when it does and the address is registered already. *)
Theorem newAddressRecord_failure (ap : addressPool) (addr : Net.IP) (e : error) :
  (newAddressRecord ap addr).2 = Some e ->
  (newAddressRecord ap addr).1.1 = ap
  /\ ((e = errInvalidAddress /\ Net.Contains (Subnet ap) addr = false)
      \/ (e = errAddressExists /\ Net.Contains (Subnet ap) addr = true
          /\ is_Some (Addresses ap !! Net.IP_String addr))).
Proof.
  unfold newAddressRecord.
  destruct (Net.Contains (Subnet ap) addr); cbn [negb].
  - destruct (Addresses ap !! Net.IP_String addr) eqn:E; [|discriminate].
    intros [= <-]. split; [done|]. right. eauto.
  - intros [= <-]. auto.
Qed.

(** X15, an instance. *)
Lemma newAddressRecord_failure_witness :
  (newAddressRecord ex_pool_shared (Net.IPv4 10 0 0 4)).1.1 = ex_pool_shared
  /\ ((errInvalidAddress = errInvalidAddress
       /\ Net.Contains (Subnet ex_pool_shared) (Net.IPv4 10 0 0 4) = false)
      \/ (errInvalidAddress = errAddressExists
          /\ Net.Contains (Subnet ex_pool_shared) (Net.IPv4 10 0 0 4) = true
          /\ is_Some (Addresses ex_pool_shared
                      !! Net.IP_String (Net.IPv4 10 0 0 4)))).
Proof.
  apply (newAddressRecord_failure ex_pool_shared (Net.IPv4 10 0 0 4)).
  vm_compute. reflexivity.
Defined.

(** X16: newAddressRecord for an address of the subnet that is not registered adds one free record with the pool's epoch under the text of the address: the other records, the set of records in use and the soundness of addrsByID are kept, the size grows by one, and registering the same address again fails with errAddressExists. *)
Theorem newAddressRecord_fresh (ap : addressPool) (addr : Net.IP) :
  Net.Contains (Subnet ap) addr = true ->
  Addresses ap !! Net.IP_String addr = None ->
  exists ap',
    newAddressRecord ap addr = (ap', Some (Net.IP_String addr), None)
    /\ Addresses ap' !! Net.IP_String addr
       = Some (mkRecord "" addr false false (ap_epoch ap))
    /\ (forall k, k <> Net.IP_String addr ->
                  Addresses ap' !! k = Addresses ap !! k)
    /\ in_use ap' = in_use ap
    /\ size (Addresses ap') = S (size (Addresses ap))
    /\ (keys_ok ap -> keys_ok ap')
    /\ (by_id_ok ap -> by_id_ok ap')
    /\ newAddressRecord ap' addr
       = (ap', Some (Net.IP_String addr), Some errAddressExists).
Proof.
  intros Hc Hl. unfold newAddressRecord. rewrite Hc, Hl. cbn [negb].
  eexists. split; [reflexivity|].
  cbn [Subnet Addresses addrsByID ap_set_Addresses].
  split; [apply lookup_insert_eq|].
  split; [intros k Hk; by apply lookup_insert_ne|].
  split; [by apply in_use_insert_free|].
  split; [by apply map_size_insert_None|].
  split; [|split].
  - intros Hkeys k ar. cbn [Addresses ap_set_Addresses].
    destruct (decide (k = Net.IP_String addr)) as [->|Hk].
    + rewrite lookup_insert_eq. by intros [= <-].
    + rewrite lookup_insert_ne by done. apply Hkeys.
  - intros Hby id k Hp. cbn [addrsByID Addresses ap_set_Addresses] in *.
    destruct (Hby id k Hp) as (Hid & ar & Hk & Hi & Hu).
    split; [done|]. exists ar. split; [|done].
    rewrite lookup_insert_ne; [done|]. intros <-. congruence.
  - rewrite Hc, lookup_insert_eq. done.
Qed.

(** X16, an instance. *)
Lemma newAddressRecord_fresh_witness :
  exists ap',
    newAddressRecord ex_pool_shared (Net.IPv4 192 168 0 9)
    = (ap', Some (Net.IP_String (Net.IPv4 192 168 0 9)), None)
    /\ Addresses ap' !! Net.IP_String (Net.IPv4 192 168 0 9)
       = Some (mkRecord "" (Net.IPv4 192 168 0 9) false false
                        (ap_epoch ex_pool_shared))
    /\ (forall k, k <> Net.IP_String (Net.IPv4 192 168 0 9) ->
                  Addresses ap' !! k = Addresses ex_pool_shared !! k)
    /\ in_use ap' = in_use ex_pool_shared
    /\ size (Addresses ap') = S (size (Addresses ex_pool_shared))
    /\ (keys_ok ex_pool_shared -> keys_ok ap')
    /\ (by_id_ok ex_pool_shared -> by_id_ok ap')
    /\ newAddressRecord ap' (Net.IPv4 192 168 0 9)
       = (ap', Some (Net.IP_String (Net.IPv4 192 168 0 9)), Some errAddressExists).
Proof.
  apply (newAddressRecord_fresh ex_pool_shared (Net.IPv4 192 168 0 9)).
  - vm_compute. reflexivity.
  - vm_compute. reflexivity.
Defined.

(** X17: After newAddressPool for a subnet and network name, a second newAddressPool for the same subnet and name (any interface and priority) fails with errAddressPoolExists and changes nothing; a pool made new is empty, not requested, carries the space's epoch, and the other pools are untouched. *)
Theorem newAddressPool_twice (as_ : addressSpace) (ifName ifName' nwName : string)
    (priority priority' : Z) (subnet : Net.IPNet) :
  newAddressPool (newAddressPool as_ ifName nwName priority subnet).1.1
                 ifName' nwName priority' subnet
  = ((newAddressPool as_ ifName nwName priority subnet).1.1,
     Net.IPNet_String subnet +:+ nwName, Some errAddressPoolExists)
  /\ (Pools as_ !! (Net.IPNet_String subnet +:+ nwName) = None ->
      exists ap,
        Pools (newAddressPool as_ ifName nwName priority subnet).1.1
          !! (Net.IPNet_String subnet +:+ nwName) = Some ap
        /\ Addresses ap = ∅ /\ addrsByID ap = ∅ /\ RefCount ap = 0
        /\ ap_epoch ap = as_epoch as_ /\ IfName ap = ifName
        /\ Priority ap = priority /\ Subnet ap = subnet)
  /\ (forall k, k <> Net.IPNet_String subnet +:+ nwName ->
        Pools (newAddressPool as_ ifName nwName priority subnet).1.1 !! k
        = Pools as_ !! k).
Proof.
  unfold newAddressPool.
  destruct (Pools as_ !! (Net.IPNet_String subnet +:+ nwName)) eqn:E.
  - cbn [fst]. rewrite E. split; [done|]. split; [done|]. done.
  - cbn [fst Pools as_set_Pools]. rewrite lookup_insert_eq.
    split; [done|]. split.
    + intros _. eexists. split; [reflexivity|]. cbn. done.
    + intros k Hk. by apply lookup_insert_ne.
Qed.

(** ** More on merge *)

Lemma alive_dec e (A : gmap string addressRecord) : alive e A \/ ~ alive e A.
Proof.
  induction A as [|k av A Hk _ IH] using map_first_key_ind.
  - right. intros (k & av & H & _). by rewrite lookup_empty in H.
  - destruct IH as [(k' & av' & Hl & Ha)|Hno].
    + left. exists k', av'. split; [|done].
      rewrite lookup_insert_ne; [done|]. intros <-. congruence.
    + destruct (keeps_alive e av) eqn:E.
      * left. exists k, av. by rewrite lookup_insert_eq.
      * right. intros (k' & av' & Hl & Ha).
        destruct (decide (k' = k)) as [->|Hne].
        -- rewrite lookup_insert_eq in Hl. congruence.
        -- rewrite lookup_insert_ne in Hl by done. apply Hno. by exists k', av'.
Qed.

(** What the cleanup loop makes of one pool. *)
Lemma swept_pool_cases e pv :
  (e <= ap_epoch pv /\ swept_pool e pv = Some pv)
  \/ (ap_epoch pv < e /\ alive e (Addresses pv)
      /\ swept_pool e pv
         = Some (ap_set_epoch e
                   (ap_set_Addresses (omap (sweep_record e) (Addresses pv)) pv)))
  \/ (ap_epoch pv < e /\ ~ alive e (Addresses pv)
      /\ swept_pool e pv
         = if isInUse pv
           then Some (ap_set_Addresses (omap (sweep_record e) (Addresses pv)) pv)
           else None).
Proof.
  destruct (Z.le_gt_cases e (ap_epoch pv)) as [H|H].
  - left. split; [done|]. by apply swept_pool_fresh.
  - right. destruct (alive_dec e (Addresses pv)) as [Ha|Ha].
    + left. split; [lia|]. split; [done|]. apply swept_pool_alive; [lia|done].
    + right. split; [lia|]. split; [done|]. apply swept_pool_dead; [lia|done].
Qed.

Lemma swept_pool_record e pv ak ar :
  Addresses pv !! ak = Some ar ->
  InUse ar = true ->
  exists pv' ar',
    swept_pool e pv = Some pv'
    /\ Addresses pv' !! ak = Some ar'
    /\ (ar' = ar \/ ar' = ar_set_unhealthy true ar)
    /\ RefCount pv' = RefCount pv /\ addrsByID pv' = addrsByID pv.
Proof.
  intros Hl Hu.
  assert (Hs : sweep_record e ar = Some ar
               \/ sweep_record e ar = Some (ar_set_unhealthy true ar)).
  { unfold sweep_record. rewrite Hu. destruct (ar_epoch ar =? e); auto. }
  assert (Ho : exists ar', omap (sweep_record e) (Addresses pv) !! ak = Some ar'
                           /\ (ar' = ar \/ ar' = ar_set_unhealthy true ar)).
  { rewrite lookup_omap, Hl. cbn. destruct Hs as [->| ->]; eauto. }
  destruct Ho as (ar' & Ho & Har').
  destruct (swept_pool_cases e pv) as [[_ ->]|[(_ & _ & ->)|(_ & Hna & _)]].
  - exists pv, ar. auto.
  - eexists _, ar'. split; [done|]. split; [exact Ho|]. auto.
  - exfalso. apply Hna. exists ak, ar. split; [done|].
    unfold keeps_alive. rewrite Hu. apply orb_true_r.
Qed.

(** X18: merge never deletes a record that is in use and never changes its id or address, whatever the snapshot and the epochs: after the merge the record's pool is in the space with the same RefCount and addrsByID, and holds the record, still in use. *)
Theorem merge_keeps_record_in_use (as_ newas : addressSpace) (pk ak : string)
    (ap : addressPool) (ar : addressRecord) :
  Pools as_ !! pk = Some ap ->
  Addresses ap !! ak = Some ar ->
  InUse ar = true ->
  exists ap' ar',
    Pools (merge as_ newas) !! pk = Some ap'
    /\ Addresses ap' !! ak = Some ar'
    /\ InUse ar' = true /\ ID ar' = ID ar /\ Addr ar' = Addr ar
    /\ RefCount ap' = RefCount ap /\ addrsByID ap' = addrsByID ap.
Proof.
  intros Hap Har Hu. rewrite merge_lookup, Hap.
  set (e' := as_epoch (merge as_ newas)).
  set (e1 := GoInt.add (as_epoch as_) 1).
  assert (Hm : exists ap1 ar1,
             match Pools newas !! pk with
             | Some pv => swept_pool e' (merged_pool e1 (Some ap) pv)
             | None => Some ap ≫= swept_pool e'
             end = swept_pool e' ap1
             /\ Addresses ap1 !! ak = Some ar1
             /\ InUse ar1 = true /\ ID ar1 = ID ar /\ Addr ar1 = Addr ar
             /\ RefCount ap1 = RefCount ap /\ addrsByID ap1 = addrsByID ap).
  { destruct (Pools newas !! pk) as [pv|].
    - cbn [merged_pool].
      destruct (Addresses pv !! ak) as [av|] eqn:Eav.
      + exists (ap_set_Addresses (merge_records e1 (Addresses ap) (Addresses pv)) ap),
               (reconfirm e1 (Some ar) av).
        split; [reflexivity|]. cbn [Addresses ap_set_Addresses].
        rewrite merge_records_lookup, Har, Eav. cbn. auto 10.
      + exists (ap_set_Addresses (merge_records e1 (Addresses ap) (Addresses pv)) ap),
               ar.
        split; [reflexivity|]. cbn [Addresses ap_set_Addresses].
        rewrite merge_records_lookup, Har, Eav. cbn. auto 10.
    - exists ap, ar. auto 10. }
  destruct Hm as (ap1 & ar1 & -> & H1 & Hu1 & Hi1 & Ha1 & Hr1 & Hb1).
  destruct (swept_pool_record e' ap1 ak ar1 H1 Hu1)
    as (pv' & ar' & -> & Hl' & Hcase & Hr' & Hb').
  exists pv', ar'. split; [done|]. split; [done|].
  destruct Hcase as [->| ->]; cbn; repeat split; congruence.
Qed.

(** X18, an instance. *)
Lemma merge_keeps_record_in_use_witness :
  exists ap' ar',
    Pools (merge ex_live ex_refresh_empty) !! ex_pool_id = Some ap'
    /\ Addresses ap' !! "192.168.0.2" = Some ar'
    /\ InUse ar' = true /\ ID ar' = ID ex_record /\ Addr ar' = Addr ex_record
    /\ RefCount ap' = RefCount ex_live_pool
    /\ addrsByID ap' = addrsByID ex_live_pool.
Proof.
  apply (merge_keeps_record_in_use ex_live ex_refresh_empty ex_pool_id
           "192.168.0.2" ex_live_pool).
  - vm_compute. reflexivity.
  - vm_compute. reflexivity.
  - reflexivity.
Defined.

(** X19: merge never deletes a pool whose RefCount is positive: the pool is in the space after the merge with the same RefCount, addrsByID, id, interface, subnet, gateway, priority and address family. *)
Theorem merge_keeps_pool_in_use (as_ newas : addressSpace) (pk : string)
    (ap : addressPool) :
  Pools as_ !! pk = Some ap ->
  0 < RefCount ap ->
  exists ap',
    Pools (merge as_ newas) !! pk = Some ap'
    /\ RefCount ap' = RefCount ap /\ addrsByID ap' = addrsByID ap
    /\ ap_Id ap' = ap_Id ap /\ IfName ap' = IfName ap /\ Subnet ap' = Subnet ap
    /\ Gateway ap' = Gateway ap /\ Priority ap' = Priority ap
    /\ IsIPv6 ap' = IsIPv6 ap.
Proof.
  intros Hap Hr. rewrite merge_lookup, Hap.
  set (e' := as_epoch (merge as_ newas)).
  set (e1 := GoInt.add (as_epoch as_) 1).
  assert (Hm : exists ap1,
             match Pools newas !! pk with
             | Some pv => swept_pool e' (merged_pool e1 (Some ap) pv)
             | None => Some ap ≫= swept_pool e'
             end = swept_pool e' ap1
             /\ RefCount ap1 = RefCount ap /\ addrsByID ap1 = addrsByID ap
             /\ ap_Id ap1 = ap_Id ap /\ IfName ap1 = IfName ap
             /\ Subnet ap1 = Subnet ap /\ Gateway ap1 = Gateway ap
             /\ Priority ap1 = Priority ap /\ IsIPv6 ap1 = IsIPv6 ap).
  { destruct (Pools newas !! pk) as [pv|].
    - eexists. split; [reflexivity|]. cbn. repeat split.
    - exists ap. repeat split. }
  destruct Hm as (ap1 & -> & Hr1 & H1 & H2 & H3 & H4 & H5 & H6 & H7).
  assert (Hin : isInUse ap1 = true).
  { unfold isInUse. rewrite Hr1. by apply Z.ltb_lt. }
  destruct (swept_pool_cases e' ap1) as [[_ ->]|[(_ & _ & ->)|(_ & _ & ->)]].
  - exists ap1. repeat split; congruence.
  - eexists. split; [reflexivity|]. cbn. repeat split; congruence.
  - rewrite Hin. eexists. split; [reflexivity|]. cbn. repeat split; congruence.
Qed.

(** X19, an instance. *)
Lemma merge_keeps_pool_in_use_witness :
  exists ap',
    Pools (merge ex_overlay_space ex_refresh_other) !! "10.0.0.0/30ov" = Some ap'
    /\ RefCount ap' = RefCount ex_overlay_pool
    /\ addrsByID ap' = addrsByID ex_overlay_pool
    /\ ap_Id ap' = ap_Id ex_overlay_pool /\ IfName ap' = IfName ex_overlay_pool
    /\ Subnet ap' = Subnet ex_overlay_pool
    /\ Gateway ap' = Gateway ex_overlay_pool
    /\ Priority ap' = Priority ex_overlay_pool
    /\ IsIPv6 ap' = IsIPv6 ex_overlay_pool.
Proof.
  apply (merge_keeps_pool_in_use ex_overlay_space ex_refresh_other
           "10.0.0.0/30ov" ex_overlay_pool).
  - vm_compute. reflexivity.
  - reflexivity.
Defined.

(** X20: A record that both the live pool and the snapshot's pool of the same key list is reconfirmed: the merge increments the space's epoch, and afterwards the record has the new epoch and unhealthy = false (an unhealthy record heals), its other fields unchanged, in a pool whose epoch is the new one or later. *)
Theorem merge_reconfirms_record (as_ newas : addressSpace) (pk ak : string)
    (ap pv : addressPool) (ar av : addressRecord) :
  GoInt.min_int <= as_epoch as_ < GoInt.max_int ->
  Pools as_ !! pk = Some ap ->
  Addresses ap !! ak = Some ar ->
  Pools newas !! pk = Some pv ->
  Addresses pv !! ak = Some av ->
  as_epoch (merge as_ newas) = as_epoch as_ + 1
  /\ exists ap',
       Pools (merge as_ newas) !! pk = Some ap'
       /\ Addresses ap' !! ak
          = Some (ar_set_unhealthy false (ar_set_epoch (as_epoch as_ + 1) ar))
       /\ as_epoch as_ + 1 <= ap_epoch ap'.
Proof.
  intros Hb Hap Har Hpv Hav.
  assert (Hused : merge_used as_ newas).
  { exists pk, pv. split; [done|right]. intros He. rewrite He in Hav.
    by rewrite lookup_empty in Hav. }
  pose proof (merge_epoch_used _ _ Hused) as He. rewrite add_one in He by done.
  split; [done|].
  rewrite merge_lookup, Hpv, Hap, He. rewrite add_one by done.
  cbn [merged_pool].
  set (e' := as_epoch as_ + 1).
  set (ap1 := ap_set_Addresses (merge_records e' (Addresses ap) (Addresses pv)) ap).
  assert (H1 : Addresses ap1 !! ak
               = Some (ar_set_unhealthy false (ar_set_epoch e' ar))).
  { unfold ap1. cbn [Addresses ap_set_Addresses].
    by rewrite merge_records_lookup, Hav, Har. }
  assert (Hsw : sweep_record e' (ar_set_unhealthy false (ar_set_epoch e' ar))
                = Some (ar_set_unhealthy false (ar_set_epoch e' ar))).
  { unfold sweep_record. cbn. by rewrite Z.eqb_refl. }
  destruct (swept_pool_cases e' ap1) as [[Hle ->]|[(_ & _ & ->)|(_ & Hna & _)]].
  - exists ap1. split; [done|]. split; [done|]. done.
  - eexists. split; [reflexivity|]. cbn [Addresses ap_epoch ap_set_epoch ap_set_Addresses].
    split; [|lia]. by rewrite lookup_omap, H1.
  - exfalso. apply Hna. eexists ak, _. split; [exact H1|].
    unfold keeps_alive. cbn. by rewrite Z.eqb_refl.
Qed.

(** X20, an instance. *)
Lemma merge_reconfirms_record_witness :
  as_epoch (merge ex_live (snapshot "eth1" 0 ex_subnet [Net.IPv4 192 168 0 2]))
  = as_epoch ex_live + 1
  /\ exists ap',
       Pools (merge ex_live (snapshot "eth1" 0 ex_subnet [Net.IPv4 192 168 0 2]))
         !! ex_pool_id = Some ap'
       /\ Addresses ap' !! "192.168.0.2"
          = Some (ar_set_unhealthy false
                    (ar_set_epoch (as_epoch ex_live + 1) ex_record))
       /\ as_epoch ex_live + 1 <= ap_epoch ap'.
Proof.
  eapply (merge_reconfirms_record ex_live _ ex_pool_id "192.168.0.2").
  - vm_compute. split; [discriminate|reflexivity].
  - vm_compute. reflexivity.
  - vm_compute. reflexivity.
  - vm_compute. reflexivity.
  - vm_compute. reflexivity.
Defined.

(** X21: A free record that the snapshot no longer lists is gone after a merge that increments the epoch: either its pool was deleted or the pool no longer holds it (epochs of the pool and record at most the space's). *)
Theorem merge_drops_stale_free_record (as_ newas : addressSpace)
    (pk ak : string) (ap : addressPool) (ar : addressRecord) :
  GoInt.min_int <= as_epoch as_ < GoInt.max_int ->
  Pools as_ !! pk = Some ap ->
  Addresses ap !! ak = Some ar ->
  InUse ar = false ->
  ap_epoch ap <= as_epoch as_ ->
  ar_epoch ar <= as_epoch as_ ->
  (forall pv, Pools newas !! pk = Some pv -> Addresses pv !! ak = None) ->
  pool_adopted as_ newas \/ record_adopted as_ newas
  \/ record_reconfirmed as_ newas ->
  match Pools (merge as_ newas) !! pk with
  | Some ap' => Addresses ap' !! ak = None
  | None => True
  end.
Proof.
  intros Hb Hap Har Hu Hpe Hre Hnew Hused.
  apply merge_used_iff in Hused.
  pose proof (merge_epoch_used _ _ Hused) as He. rewrite add_one in He by done.
  rewrite merge_lookup, Hap, He.
  set (e' := as_epoch as_ + 1).
  assert (Hm : exists ap1,
             match Pools newas !! pk with
             | Some pv => swept_pool e' (merged_pool (GoInt.add (as_epoch as_) 1)
                                                     (Some ap) pv)
             | None => Some ap ≫= swept_pool e'
             end = swept_pool e' ap1
             /\ Addresses ap1 !! ak = Some ar /\ ap_epoch ap1 = ap_epoch ap).
  { destruct (Pools newas !! pk) as [pv|] eqn:E.
    - eexists. split; [reflexivity|]. cbn [merged_pool Addresses ap_set_Addresses].
      rewrite merge_records_lookup, (Hnew pv eq_refl). done.
    - exists ap. done. }
  destruct Hm as (ap1 & -> & H1 & Hpe1).
  assert (Hsw : sweep_record e' ar = None).
  { unfold sweep_record. rewrite Hu.
    destruct (ar_epoch ar =? e') eqn:E; [apply Z.eqb_eq in E; lia|done]. }
  destruct (swept_pool_cases e' ap1) as [[Hle _]|[(_ & _ & ->)|(_ & _ & ->)]].
  - unfold e' in Hle. lia.
  - cbn [Addresses ap_set_epoch ap_set_Addresses].
    by rewrite lookup_omap, H1.
  - destruct (isInUse ap1); [|done].
    cbn [Addresses ap_set_Addresses]. by rewrite lookup_omap, H1.
Qed.

(** X21, an instance. *)
Lemma merge_drops_stale_free_record_witness :
  match Pools (merge (snapshot "eth1" 0 ex_subnet [Net.IPv4 192 168 0 2])
                     ex_refresh_other) !! ex_pool_id with
  | Some ap' => Addresses ap' !! "192.168.0.2" = None
  | None => True
  end.
Proof.
  eapply (merge_drops_stale_free_record
            (snapshot "eth1" 0 ex_subnet [Net.IPv4 192 168 0 2]) ex_refresh_other
            ex_pool_id "192.168.0.2" _
            (mkRecord "" (Net.IPv4 192 168 0 2) false false 0)).
  - vm_compute. split; [discriminate|reflexivity].
  - vm_compute. reflexivity.
  - vm_compute. reflexivity.
  - reflexivity.
  - vm_compute. discriminate.
  - vm_compute. discriminate.
  - intros pv H. vm_compute in H. injection H as <-. vm_compute. reflexivity.
  - right. left. unfold record_adopted.
    eexists ex_pool_id, _, _, "192.168.0.3", _.
    split; [vm_compute; reflexivity|].
    split; [vm_compute; reflexivity|].
    split; vm_compute; reflexivity.
Defined.

Lemma merge_records_empty e A : merge_records e A ∅ = A.
Proof. apply map_eq. intros k. by rewrite merge_records_lookup, lookup_empty. Qed.

Lemma space_eq (a b : addressSpace) :
  as_Id a = as_Id b -> Scope a = Scope b -> Pools a = Pools b ->
  as_epoch a = as_epoch b -> a = b.
Proof. destruct a, b; cbn; congruence. Qed.

(** X22: Merging a snapshot that lists only pools the space already has, each with no address, into a space without stale pools (every pool epoch at least the space's) changes nothing: merge returns the space as it was. *)
Theorem merge_nothing_new (as_ newas : addressSpace) :
  (forall pk ap, Pools as_ !! pk = Some ap -> as_epoch as_ <= ap_epoch ap) ->
  (forall pk pv, Pools newas !! pk = Some pv ->
                 is_Some (Pools as_ !! pk) /\ Addresses pv = ∅) ->
  merge as_ newas = as_.
Proof.
  intros Hfresh Hnew.
  assert (Hun : ~ merge_used as_ newas).
  { intros (pk & pv & Hpv & [Hl|Hne]).
    - destruct (Hnew pk pv Hpv) as [[ap Hap] _]. congruence.
    - by destruct (Hnew pk pv Hpv) as [_ ?]. }
  pose proof (merge_epoch_unused _ _ Hun) as He.
  apply space_eq; [done|done| |done].
  apply map_eq. intros pk. rewrite merge_lookup, He.
  destruct (Pools newas !! pk) as [pv|] eqn:Epv.
  - destruct (Hnew pk pv Epv) as [[ap Hap] Hempty]. rewrite Hap.
    cbn [merged_pool]. rewrite Hempty, merge_records_empty.
    replace (ap_set_Addresses (Addresses ap) ap) with ap by (by destruct ap).
    apply swept_pool_fresh. by apply (Hfresh pk).
  - destruct (Pools as_ !! pk) as [ap|] eqn:Eap; [|done]. cbn.
    apply swept_pool_fresh. by apply (Hfresh pk).
Qed.

(** X22, an instance. *)
Lemma merge_nothing_new_witness : merge ex_live ex_refresh_empty = ex_live.
Proof.
  apply merge_nothing_new.
  - intros pk ap H.
    assert (Hm : Pools ex_live = {[ex_pool_id := ex_live_pool]})
      by (vm_compute; reflexivity).
    rewrite Hm in H. apply lookup_singleton_Some in H as [_ <-].
    vm_compute. discriminate.
  - intros pk pv H.
    assert (Hm : Pools ex_refresh_empty = {[ex_pool_id := ex_pool]})
      by (vm_compute; reflexivity).
    rewrite Hm in H. apply lookup_singleton_Some in H as [<- <-].
    split; [|reflexivity]. exists ex_live_pool. vm_compute. reflexivity.
Defined.

Lemma swept_pool_epochs_ok e pv pv' :
  pool_epochs_ok e pv -> swept_pool e pv = Some pv' -> pool_epochs_ok e pv'.
Proof.
  intros [Hp Hr] Hs.
  assert (Hom : forall ak ar,
             omap (sweep_record e) (Addresses pv) !! ak = Some ar ->
             ar_epoch ar <= e).
  { intros ak ar. rewrite lookup_omap.
    destruct (Addresses pv !! ak) as [ar0|] eqn:E; [|done]. cbn.
    unfold sweep_record.
    destruct (ar_epoch ar0 =? e); [intros [= <-]; by apply (Hr ak)|].
    destruct (InUse ar0); [|done]. intros [= <-]. cbn. by apply (Hr ak). }
  destruct (swept_pool_cases e pv) as [[_ H]|[(_ & _ & H)|(_ & _ & H)]];
    rewrite H in Hs.
  - by simplify_eq.
  - simplify_eq. split; [cbn; lia|]. exact Hom.
  - destruct (isInUse pv); [|done]. simplify_eq. split; [done|exact Hom].
Qed.

(** X23: merge keeps the epochs in order: if no pool or record of the live space and of the snapshot is ahead of its space's epoch and the snapshot's epoch is at most the live epoch plus one, then after the merge no pool or record is ahead of the new epoch. *)
Theorem merge_keeps_epochs_ok (as_ newas : addressSpace) :
  GoInt.min_int <= as_epoch as_ < GoInt.max_int ->
  epochs_ok as_ ->
  epochs_ok newas ->
  as_epoch newas <= as_epoch as_ + 1 ->
  epochs_ok (merge as_ newas).
Proof.
  intros Hb Hok Hnew Hle pk ap'.
  set (e' := as_epoch (merge as_ newas)).
  assert (He : (e' = as_epoch as_ /\ ~ merge_used as_ newas)
               \/ (e' = as_epoch as_ + 1 /\ merge_used as_ newas)).
  { destruct (merge_used_dec as_ newas) as [Hu|Hu].
    - right. split; [|done]. unfold e'.
      rewrite (merge_epoch_used _ _ Hu). by apply add_one.
    - left. split; [|done]. by apply merge_epoch_unused. }
  assert (Hge : as_epoch as_ <= e') by (destruct He as [[H _]|[H _]]; lia).
  rewrite merge_lookup. fold e'. clearbody e'.
  destruct (Pools newas !! pk) as [pv|] eqn:Epv.
  - apply swept_pool_epochs_ok.
    destruct (Hnew pk pv Epv) as [Hpe Hre].
    destruct (Pools as_ !! pk) as [ap|] eqn:Eap; cbn [merged_pool].
    + destruct (Hok pk ap Eap) as [Hape Hare].
      split; [cbn; lia|].
      intros ak ar. cbn [Addresses ap_set_Addresses].
      rewrite merge_records_lookup.
      destruct (Addresses pv !! ak) as [av|] eqn:Eav.
      * assert (Hu : merge_used as_ newas).
        { exists pk, pv. split; [done|right]. intros Hem. rewrite Hem in Eav.
          by rewrite lookup_empty in Eav. }
        destruct He as [[_ ?]|[He _]]; [done|].
        rewrite add_one by done.
        intros [= <-]. destruct (Addresses ap !! ak); cbn; lia.
      * intros H. pose proof (Hare ak ar H). lia.
    + assert (Hu : merge_used as_ newas) by (exists pk, pv; auto).
      destruct He as [[_ ?]|[He _]]; [done|].
      rewrite add_one by done.
      split; [cbn; lia|]. intros ak ar H. cbn in H.
      pose proof (Hre ak ar H). lia.
  - destruct (Pools as_ !! pk) as [ap|] eqn:Eap; [|done]. cbn.
    apply swept_pool_epochs_ok.
    destruct (Hok pk ap Eap) as [Hape Hare].
    split; [lia|]. intros ak ar H. pose proof (Hare ak ar H). lia.
Qed.

Lemma ex_live_epochs_ok : epochs_ok ex_live.
Proof.
  intros pk ap H.
  assert (Hm : Pools ex_live = {[ex_pool_id := ex_live_pool]})
    by (vm_compute; reflexivity).
  rewrite Hm in H. apply lookup_singleton_Some in H as [_ <-].
  split; [vm_compute; discriminate|].
  intros ak ar H. cbn in H. apply lookup_singleton_Some in H as [_ <-].
  vm_compute. discriminate.
Qed.

Lemma ex_refresh_other_epochs_ok : epochs_ok ex_refresh_other.
Proof.
  intros pk ap H.
  assert (Hm : Pools ex_refresh_other
               = {[ex_pool_id :=
                     ap_set_Addresses
                       {["192.168.0.3" :=
                           mkRecord "" (Net.IPv4 192 168 0 3) false false 0]}
                       ex_pool]})
    by (vm_compute; reflexivity).
  rewrite Hm in H. apply lookup_singleton_Some in H as [_ <-].
  split; [vm_compute; discriminate|].
  intros ak ar H. cbn in H. apply lookup_singleton_Some in H as [_ <-].
  vm_compute. discriminate.
Qed.

(** X23, an instance. *)
Lemma merge_keeps_epochs_ok_witness : epochs_ok (merge ex_live ex_refresh_other).
Proof.
  apply merge_keeps_epochs_ok.
  - vm_compute. split; [discriminate|reflexivity].
  - apply ex_live_epochs_ok.
  - apply ex_refresh_other_epochs_ok.
  - vm_compute. discriminate.
Defined.

(** ** inc *)

Lemma bytes_value_app l b : bytes_value (l ++ [b]) = bytes_value l * 256 + b.
Proof. unfold bytes_value. by rewrite foldl_snoc. Qed.

Lemma inc_rev_length l : length (inc_rev l) = length l.
Proof.
  induction l as [|b l IH]; [done|]. cbn.
  destruct (0 <? GoInt.byte_inc b); cbn; [done|by rewrite IH].
Qed.

Lemma inc_rev_bytes l : Forall is_byte l -> Forall is_byte (inc_rev l).
Proof.
  induction 1 as [|b l Hb Hl IH]; [constructor|]. cbn.
  assert (is_byte (GoInt.byte_inc b)).
  { unfold is_byte, GoInt.byte_inc. apply Z.mod_pos_bound. lia. }
  destruct (0 <? GoInt.byte_inc b); by constructor.
Qed.

Lemma bytes_value_bound l :
  Forall is_byte l -> 0 <= bytes_value (rev l) < 256 ^ Z.of_nat (length l).
Proof.
  induction 1 as [|b l Hb Hl IH]; [cbn; lia|].
  cbn [rev length]. rewrite bytes_value_app, Nat2Z.inj_succ, Z.pow_succ_r by lia.
  unfold is_byte in Hb. lia.
Qed.

Lemma inc_rev_value l :
  Forall is_byte l ->
  bytes_value (rev (inc_rev l))
  = (bytes_value (rev l) + 1) mod 256 ^ Z.of_nat (length l).
Proof.
  induction 1 as [|b l Hb Hl IH]; [done|].
  pose proof (bytes_value_bound l Hl) as Hv.
  cbn [inc_rev length rev]. rewrite Nat2Z.inj_succ, Z.pow_succ_r by lia.
  unfold is_byte in Hb. unfold GoInt.byte_inc.
  destruct (decide (b = 255)) as [->|Hne].
  - cbn [Z.ltb Z.add Z.modulo]. change ((255 + 1) mod 256) with 0.
    cbn [Z.ltb Z.compare rev]. rewrite !bytes_value_app, IH.
    replace (bytes_value (rev l) * 256 + 255 + 1)
      with (256 * (bytes_value (rev l) + 1)) by lia.
    rewrite Z.mul_mod_distr_l by lia. lia.
  - rewrite (Z.mod_small (b + 1)) by lia.
    destruct (0 <? b + 1) eqn:E; [|apply Z.ltb_ge in E; lia].
    cbn [rev]. rewrite !bytes_value_app.
    rewrite Z.mod_small; lia.
Qed.

(** X24: inc steps an address to the next one: on bytes in [0,256) it keeps the length and the byte range, and the number the bytes stand for (big-endian) becomes that number plus one modulo 256^length, so the last address wraps to zero. *)
Theorem inc_next_address (ip : Net.IP) :
  Forall is_byte ip ->
  length (inc ip) = length ip
  /\ Forall is_byte (inc ip)
  /\ bytes_value (inc ip) = (bytes_value ip + 1) mod 256 ^ Z.of_nat (length ip).
Proof.
  intros H. unfold inc.
  assert (Hr : Forall is_byte (rev ip)) by (by apply Forall_rev).
  split; [|split].
  - by rewrite length_rev, inc_rev_length, length_rev.
  - by apply Forall_rev, inc_rev_bytes.
  - rewrite (inc_rev_value (rev ip) Hr). by rewrite rev_involutive, length_rev.
Qed.

(** X24, an instance. *)
Lemma inc_next_address_witness :
  length (inc [10; 0; 255; 255]) = length [10; 0; 255; 255]
  /\ Forall is_byte (inc [10; 0; 255; 255])
  /\ bytes_value (inc [10; 0; 255; 255])
     = (bytes_value [10; 0; 255; 255] + 1)
       mod 256 ^ Z.of_nat (length [10; 0; 255; 255]).
Proof.
  apply inc_next_address.
  repeat constructor; discriminate.
Defined.

(** ** setAddressSpace and getAddressSpace *)

(** X25: After setAddressSpace, getAddressSpace of the space's id returns the space given when the id was new and the merge of the stored space with it otherwise; every other id reads as before; and every space stays stored under its own id. *)
Theorem setAddressSpace_getAddressSpace (spaces : gmap string addressSpace)
    (as_ : addressSpace) :
  getAddressSpace (setAddressSpace spaces as_) (as_Id as_)
  = Ok (match spaces !! as_Id as_ with
        | None => as_
        | Some as1 => merge as1 as_
        end)
  /\ (forall id, id <> as_Id as_ ->
                 getAddressSpace (setAddressSpace spaces as_) id
                 = getAddressSpace spaces id)
  /\ (spaces_ok spaces -> spaces_ok (setAddressSpace spaces as_)).
Proof.
  unfold getAddressSpace, setAddressSpace.
  destruct (spaces !! as_Id as_) as [as1|] eqn:E.
  - rewrite lookup_insert_eq. split; [done|]. split.
    + intros id Hid. by rewrite lookup_insert_ne.
    + intros Hok k s. destruct (decide (k = as_Id as_)) as [->|Hk].
      * rewrite lookup_insert_eq. intros [= <-]. cbn. by apply Hok.
      * rewrite lookup_insert_ne by done. apply Hok.
  - rewrite lookup_insert_eq. split; [done|]. split.
    + intros id Hid. by rewrite lookup_insert_ne.
    + intros Hok k s. destruct (decide (k = as_Id as_)) as [->|Hk].
      * rewrite lookup_insert_eq. by intros [= <-].
      * rewrite lookup_insert_ne by done. apply Hok.
Qed.

(** ** getInfo *)

Lemma omap_lookup_keys (A : gmap string addressRecord)
    (l : list (string * addressRecord)) :
  (forall kv, kv ∈ l -> A !! kv.1 = Some kv.2) ->
  omap (fun k => A !! k) l.*1 = l.*2.
Proof.
  induction l as [|[k v] l IH]; [done|].
  intros H. pose proof (H (k, v) ltac:(left)) as Hk. cbn in Hk.
  cbn. rewrite Hk. cbn.
  f_equal. apply IH. intros kv Hkv. apply H. by right.
Qed.

Lemma getInfo_records order (A : gmap string addressRecord) :
  order ≡ₚ (map_to_list A).*1 ->
  omap (fun k => A !! k) order ≡ₚ (map_to_list A).*2.
Proof.
  intros ->. rewrite omap_lookup_keys; [done|].
  intros [k v] H. by apply elem_of_map_to_list in H.
Qed.

Lemma count_free_fold (recs : list addressRecord) (n0 : Z) :
  0 <= n0 -> n0 + Z.of_nat (length recs) <= GoInt.max_int ->
  foldl (fun n ar => if InUse ar then n else GoInt.add n 1) n0 recs
  = n0 + Z.of_nat (length (filter (fun ar => InUse ar = false) recs)).
Proof.
  revert n0. induction recs as [|ar recs IH]; intros n0 H0 Hb; [cbn; lia|].
  cbn [foldl length] in *. rewrite filter_cons.
  destruct (InUse ar) eqn:E.
  - rewrite decide_False by done. apply IH; lia.
  - rewrite decide_True by done. unfold GoInt.add.
    rewrite wrap_small by (unfold GoInt.min_int, GoInt.max_int in *; lia).
    rewrite IH by lia. cbn [length]. lia.
Qed.

Lemma free_plus_in_use (A : gmap string addressRecord) :
  (length (filter (fun ar => InUse ar = false) (map_to_list A).*2)
   + size (dom (filter (fun kr : string * addressRecord => InUse kr.2 = true) A)
           : gset string))%nat
  = size A.
Proof.
  induction A as [|k ar A Hk IH] using map_ind.
  - by rewrite map_to_list_empty, map_filter_empty, dom_empty_L.
  - rewrite map_size_insert_None by done.
    rewrite (map_to_list_insert A k ar) by done.
    cbn [fmap list_fmap snd]. rewrite filter_cons. cbn [snd].
    destruct (InUse ar) eqn:E.
    + rewrite decide_False by done.
      rewrite map_filter_insert_True by done.
      rewrite dom_insert_L, size_union, size_singleton.
      * lia.
      * apply disjoint_singleton_l. intros Hin.
        apply elem_of_dom in Hin as [x Hx].
        apply map_lookup_filter_Some in Hx as [Hx _]. congruence.
    + rewrite decide_True by done.
      rewrite map_filter_insert_False by (cbn; congruence).
      rewrite delete_id by done. cbn [length]. lia.
Qed.

(** X26: getInfo reports Capacity as the number of records and, when the loop visits each key once, Available as Capacity minus the number of records in use; UnhealthyAddrs holds exactly the addresses of the records marked unhealthy. *)
Theorem getInfo_counts (order : list string) (ap : addressPool) :
  order ≡ₚ (map_to_list (Addresses ap)).*1 ->
  Z.of_nat (size (Addresses ap)) <= GoInt.max_int ->
  Capacity (getInfo order ap) = Z.of_nat (size (Addresses ap))
  /\ Available (getInfo order ap)
     = Z.of_nat (size (Addresses ap)) - Z.of_nat (size (in_use ap))
  /\ (forall ip, ip ∈ UnhealthyAddrs (getInfo order ap) <->
                 exists k ar, Addresses ap !! k = Some ar
                              /\ unhealthy ar = true /\ Addr ar = ip).
Proof.
  intros Hord Hb.
  pose proof (getInfo_records order (Addresses ap) Hord) as Hrecs.
  assert (Hlen : length (omap (fun k => Addresses ap !! k) order)
                 = size (Addresses ap)).
  { rewrite Hrecs, length_fmap. apply length_map_to_list. }
  unfold getInfo. cbn [Capacity Available UnhealthyAddrs].
  split; [done|]. split.
  - rewrite count_free_fold by (rewrite ?Hlen; unfold GoInt.max_int in *; lia).
    rewrite Hrecs. pose proof (free_plus_in_use (Addresses ap)) as H.
    unfold in_use. lia.
  - intros ip. rewrite list_elem_of_fmap. split.
    + intros (ar & -> & Hin). apply list_elem_of_filter in Hin as [Hu Hin].
      rewrite Hrecs in Hin. apply list_elem_of_fmap in Hin as ([k ar'] & -> & Hkv).
      apply elem_of_map_to_list in Hkv. exists k, ar'. done.
    + intros (k & ar & Hl & Hu & <-). exists ar. split; [done|].
      apply list_elem_of_filter. split; [done|].
      rewrite Hrecs. apply list_elem_of_fmap. exists (k, ar). split; [done|].
      by apply elem_of_map_to_list.
Qed.

(** X26, an instance. *)
Lemma getInfo_counts_witness :
  Capacity (getInfo ["192.168.0.3"; "192.168.0.2"] ex_pool_shared)
  = Z.of_nat (size (Addresses ex_pool_shared))
  /\ Available (getInfo ["192.168.0.3"; "192.168.0.2"] ex_pool_shared)
     = Z.of_nat (size (Addresses ex_pool_shared))
       - Z.of_nat (size (in_use ex_pool_shared))
  /\ (forall ip,
        ip ∈ UnhealthyAddrs (getInfo ["192.168.0.3"; "192.168.0.2"] ex_pool_shared)
        <-> exists k ar, Addresses ex_pool_shared !! k = Some ar
                         /\ unhealthy ar = true /\ Addr ar = ip).
Proof.
  apply getInfo_counts.
  - replace ((map_to_list (Addresses ex_pool_shared)).*1)
      with ["192.168.0.3"; "192.168.0.2"] by (vm_compute; reflexivity).
    reflexivity.
  - vm_compute. discriminate.
Defined.

(** ** The Azure source *)

Lemma string_app_nil_r (s : string) : s +:+ "" = s.
Proof.
  induction s as [|c s IH]; [done|].
  change (String c (s +:+ "") = String c s). by rewrite IH.
Qed.

(** X27: The refresh of the Azure source never registers a primary address: the loop over the addresses of a subnet gives the same pool and error as on the list with the primary addresses removed. *)
Theorem refresh_addresses_skips_primary (parseIPv6 : string -> option Net.IP)
    (ap : addressPool) (l : list xmlIPAddress) :
  refresh_addresses parseIPv6 ap l
  = refresh_addresses parseIPv6 ap
      (filter (fun a => addr_IsPrimary a = false) l).
Proof.
  revert ap. induction l as [|a l IH]; intros ap; [done|].
  rewrite filter_cons. cbn [refresh_addresses].
  destruct (addr_IsPrimary a) eqn:E.
  - rewrite decide_False by done. apply IH.
  - rewrite decide_True by done. cbn [refresh_addresses]. rewrite E.
    destruct (newAddressRecord ap _) as [[ap1 k] [e|]]; [done|apply IH].
Qed.

(** X28: A prefix whose pool the local space being built already has aborts the refresh with errAddressPoolExists and leaves the space unchanged: the test against errAddressExists at azure.go line 157 never lets newAddressPool's error through. *)
Theorem refresh_subnets_duplicate_prefix (parseIPv6 : string -> option Net.IP)
    (local : addressSpace) (ifName : string) (priority : Z) (s : xmlIPSubnet)
    (rest : list xmlIPSubnet) (ip : Net.IP) (subnet : Net.IPNet) :
  Net.ParseCIDR parseIPv6 (Prefix s) = Some (ip, subnet) ->
  is_Some (Pools local !! Net.IPNet_String subnet) ->
  refresh_subnets parseIPv6 local ifName priority (s :: rest)
  = (local, Some (IpamError errAddressPoolExists)).
Proof.
  intros Hc [ap Hap]. cbn [refresh_subnets]. rewrite Hc.
  unfold newAddressPool. rewrite string_app_nil_r, Hap. cbn [fst snd].
  rewrite bool_decide_eq_true_2 by done. done.
Qed.

(** X28, an instance. *)
Lemma refresh_subnets_duplicate_prefix_witness :
  refresh_subnets (fun _ => None) ex_refresh_other "eth1" 1
    [mkXmlIPSubnet "192.168.0.0/24" [mkXmlIPAddress "192.168.0.6" false]]
  = (ex_refresh_other, Some (IpamError errAddressPoolExists)).
Proof.
  eapply refresh_subnets_duplicate_prefix.
  - vm_compute. reflexivity.
  - eexists. vm_compute. reflexivity.
Defined.

Lemma newAddressRecord_fresh_pool ap addr :
  fresh_pool ap -> fresh_pool (newAddressRecord ap addr).1.1.
Proof.
  intros (Hr & He & Hb & Hrec). unfold newAddressRecord.
  destruct (Net.Contains (Subnet ap) addr); cbn [negb]; [|done].
  destruct (Addresses ap !! Net.IP_String addr) eqn:E; [done|].
  cbn [fst]. split; [done|]. split; [done|]. split; [done|].
  intros k ar. cbn [Addresses ap_set_Addresses].
  destruct (decide (k = Net.IP_String addr)) as [->|Hk].
  - rewrite lookup_insert_eq. intros [= <-]. cbn. by rewrite He.
  - rewrite lookup_insert_ne by done. apply Hrec.
Qed.

Lemma refresh_addresses_fresh_pool p6 l : forall ap,
  fresh_pool ap -> fresh_pool (refresh_addresses p6 ap l).1.
Proof.
  induction l as [|a l IH]; intros ap H; [done|]. cbn [refresh_addresses].
  destruct (addr_IsPrimary a); [by apply IH|].
  pose proof (newAddressRecord_fresh_pool ap
                (default [] (Net.ParseIP p6 (Address a))) H) as H1.
  destruct (newAddressRecord ap _) as [[ap1 k] [e|]]; cbn [fst] in *;
    [done|by apply IH].
Qed.

Lemma fresh_space_insert as_ k ap :
  fresh_space as_ -> fresh_pool ap ->
  fresh_space (as_set_Pools (<[k := ap]> (Pools as_)) as_).
Proof.
  intros [He Hp] Hap. split; [done|]. intros pk ap'. cbn [Pools as_set_Pools].
  destruct (decide (pk = k)) as [->|Hk].
  - rewrite lookup_insert_eq. by intros [= <-].
  - rewrite lookup_insert_ne by done. apply Hp.
Qed.

Lemma newAddressPool_fresh_space as_ ifName nwName priority subnet :
  fresh_space as_ ->
  fresh_space (newAddressPool as_ ifName nwName priority subnet).1.1.
Proof.
  intros H. unfold newAddressPool.
  destruct (Pools as_ !! _); [done|]. cbn [fst].
  apply fresh_space_insert; [done|].
  destruct H as [He _]. split; [done|]. split; [done|]. split; [done|].
  intros k ar. cbn. by rewrite lookup_empty.
Qed.

Lemma refresh_subnets_fresh_space p6 ifName priority l : forall local,
  fresh_space local ->
  fresh_space (refresh_subnets p6 local ifName priority l).1.
Proof.
  induction l as [|s l IH]; intros local H; [done|]. cbn [refresh_subnets].
  destruct (Net.ParseCIDR p6 (Prefix s)) as [[ip subnet]|]; [|done].
  pose proof (newAddressPool_fresh_space local ifName "" priority subnet H) as H1.
  destruct (newAddressPool local ifName "" priority subnet) as [[as1 k] oe].
  cbn [fst snd] in *.
  destruct (match oe with
            | Some err =>
                if bool_decide (err <> errAddressExists) then Some err else None
            | None => None
            end); [done|].
  destruct (Pools as1 !! k) as [ap|] eqn:E; [|done].
  pose proof (refresh_addresses_fresh_pool p6 (IPAddress s) ap
                (proj2 H1 k ap E)) as H2.
  destruct (refresh_addresses p6 ap (IPAddress s)) as [ap' [e|]]; cbn [fst] in *.
  - by apply fresh_space_insert.
  - apply IH. by apply fresh_space_insert.
Qed.

Lemma fresh_space_epochs_ok as_ : fresh_space as_ -> epochs_ok as_.
Proof.
  intros [He Hp] pk ap Hap. destruct (Hp pk ap Hap) as (_ & Hpe & _ & Hrec).
  split; [lia|]. intros ak ar Har. destruct (Hrec ak ar Har) as [-> _]. cbn. lia.
Qed.

Lemma fresh_space_empty :
  fresh_space (mkSpace LocalDefaultAddressSpaceId LocalScope ∅ 0).
Proof.
  split; [done|]. intros pk ap Hp. cbn in Hp. by rewrite lookup_empty in Hp.
Qed.

Lemma refresh_interfaces_fresh p6 tl interfaces doc : forall local,
  fresh_space local ->
  fresh_space (refresh_interfaces p6 tl interfaces local doc).1.
Proof.
  induction doc as [|i doc IH]; intros local Hl; [done|].
  cbn [refresh_interfaces].
  destruct (find_interface tl interfaces _) as [ifName|]; [|by apply IH].
  case_bool_decide; [by apply IH|].
  pose proof (refresh_subnets_fresh_space p6 ifName
                (if if_IsPrimary i then 0 else 1) (IPSubnet i) local Hl) as H1.
  destruct (refresh_subnets p6 local ifName _ (IPSubnet i))
    as [local1 [e|]]; cbn [fst] in *; [done|by apply IH].
Qed.

(** X29: Whatever the document and the interfaces, the space that the refresh builds has epoch 0 and pools with RefCount 0, epoch 0, empty addrsByID and records that are free, healthy, without id, of epoch 0 and stored under the text of their address; hence no epoch in it is ahead of the space's. *)
Theorem refresh_interfaces_fresh_space (parseIPv6 : string -> option Net.IP)
    (ToLower : string -> string) (interfaces : list netInterface)
    (doc : list xmlInterface) :
  fresh_space
    (refresh_interfaces parseIPv6 ToLower interfaces
       (mkSpace LocalDefaultAddressSpaceId LocalScope ∅ 0) doc).1
  /\ epochs_ok
       (refresh_interfaces parseIPv6 ToLower interfaces
          (mkSpace LocalDefaultAddressSpaceId LocalScope ∅ 0) doc).1.
Proof.
  pose proof (refresh_interfaces_fresh parseIPv6 ToLower interfaces doc _
                fresh_space_empty) as H.
  split; [done|]. by apply fresh_space_epochs_ok.
Qed.



